(** * Avito webhook server: reconciliation and cache consistency

    A shallow embedding of [server.js]: the chat cache ([safeName],
    [saveChatMessages], [updateChatCache]), the summary index, the periodic
    sync ([periodicSync]) and the webhook and cached-messages request
    handlers, with the properties the specification states about them;
    then the loading of the persisted state, the remote API client
    ([getToken], [avitoApi]) and the two listing endpoints, with
    properties read off the code.

    Modelling conventions.
    - JavaScript strings are [string]; objects used as maps ([chatIndex],
      [webhookSeen], the files of the chats directory) are [gmap string _].
    - A field the code guards with [x || default] or [x && x.y] is an
      [option]; [None] is JavaScript's [undefined].
    - [avitoApi] is an oracle over an abstract remote state: it answers
      [ApiNull] where the source returns [null] (request error, bad JSON,
      token failure) and [ApiData d] where it returns the parsed body.
      The function itself, with the token cache, is embedded on its own
      over an abstract network.
    - Effects are a state-and-output monad over [World]; the output is the
      ordered list of observable events (log lines, remote requests, HTTP
      responses).
    - [sleep] only delays and is the identity on the state.  File writes
      are taken to succeed, and the typed records exclude listing or
      message elements of the wrong JSON shape, so no path of the modelled
      functions throws. *)

From Stdlib Require Import ZArith String Ascii List Lia Bool.
From stdpp Require Import base option list gmap strings fin_maps pretty.

Local Open Scope string_scope.
Local Open Scope Z_scope.
Local Open Scope list_scope.

(** ** File names of cached chats *)

(** [chatId.replace(/\//g, '%2F')] *)
Fixpoint safeName (chatId : string) : string :=
  match chatId with
  | EmptyString => EmptyString
  | String c rest =>
      if Ascii.eqb c "/"
      then String "%" (String "2" (String "F" (safeName rest)))
      else String c (safeName rest)
  end.

(** The source has no decoder.  [decodeName] is the reading-back the
    specification's round-trip sentence refers to: every [%2F] becomes a
    slash again, scanning left to right. *)
Fixpoint decodeName (s : string) : string :=
  match s with
  | EmptyString => EmptyString
  | String c rest =>
      match rest with
      | String c1 (String c2 rest') =>
          if Ascii.eqb c "%" && Ascii.eqb c1 "2" && Ascii.eqb c2 "F"
          then String "/" (decodeName rest')
          else String c (decodeName rest)
      | _ => String c (decodeName rest)
      end
  end.

(** Does the id already contain the escape sequence [%2F]? *)
Fixpoint has_escape (s : string) : bool :=
  match s with
  | EmptyString => false
  | String c rest =>
      (Ascii.eqb c "%" && String.prefix "2F" rest) || has_escape rest
  end.

(** ** Data received from the remote API *)

Record Content := { text : option string }.

Record Message := {
  m_id : option string;
  m_created : option Z;
  m_author_id : option Z;
  m_type : option string;
  m_content : option Content }.

Record User := { u_id : option Z; u_name : option string }.

Record ContextValue := {
  title : option string;
  price_string : option string;
  url : option string }.

Record ChatContext := { value : option ContextValue }.

(** One element of [data.chats] in the listing response. *)
Record Chat := {
  chat_id : string;
  last_message : option Message;
  users : option (list User);
  context : option ChatContext }.

Record ChatsData := { chats : option (list Chat) }.
Record MessagesData := { messages : option (list Message) }.

(** What [avitoApi] resolves to: [null] or the parsed body. *)
Inductive ApiResult (A : Type) : Type :=
  | ApiNull
  | ApiData (d : A).
Arguments ApiNull {A}.
Arguments ApiData {A} d.

(** The view the webhook handler takes of a parsed body: [JSON.parse] gave
    [null] (whose property access throws), or some other value, of which
    only [payload.payload.value] is read, when it is there. *)
Record WebhookValue := { wv_chat_id : option string; wv_id : option string }.

Inductive WebhookJson :=
  | WJNull
  | WJValue (v : option WebhookValue).

(** ** Server state *)

Inductive Direction := DirIn | DirOut.

(** An entry of [chatIndex]. *)
Record Summary := {
  updated : Z;
  lastMsgId : string;
  lastDir : Direction;
  lastText : string;
  s_users : list string;
  item : option string;
  price : option string;
  itemUrl : option string }.

(** An entry of [webhookSeen]. *)
Record Seen := { seen_lastMsgId : string; seen_at : Z }.

Record SyncState := {
  lastSync : option Z;
  lastDuration : Z;
  chatsChecked : nat;
  chatsUpdated : nat;
  chatsMissed : nat;
  isRunning : bool;
  errors : nat }.

(** The JSON file of a chat, [{ chat_id, messages, cached_at }]. *)
Record CachedConversation := {
  cc_chat_id : string;
  cc_messages : list Message;
  cached_at : Z }.

(** A file of the chats directory: the JSON blob, or the transcript as its
    lines. *)
Inductive File :=
  | JsonFile (c : CachedConversation)
  | TxtFile (lines : list string).

(** ** Observable events *)

Inductive LogMsg :=
  | LogSyncStart
  | LogFetched (n : nat)
  | LogNoMessages (chatId : string)
  | LogCacheUpdated (chatId : string) (n : nat)
  | LogSyncDone (checked updated : nat)
  | LogSyncUpToDate (checked : nat)
  | LogWebhook (body : string)
  | LogNewMessage (chatId : string)
  | LogWebhookParseError.

Inductive ApiRequest :=
  | GetChats (offset : nat)
  | GetMessages (chatId : string).

Inductive ResponseBody :=
  | BodyOk
  | BodyUnauthorized
  | BodyNotInCache (chatId : string)
  | BodyCached (c : CachedConversation)
  | BodyError.

Inductive Event :=
  | EvLog (m : LogMsg)
  | EvRequest (r : ApiRequest)
  | EvResponse (status : nat) (body : ResponseBody).

(** ** The environment of the server process *)

(** The remote platform with its state [Ext], the clock read from that
    state, the configuration, and the two library functions that are not
    modelled further: [JSON.parse] on a webhook body and the local-time
    rendering of a timestamp in the transcript. *)
Class Env := {
  Ext : Type;
  api_chats : Ext -> nat -> ApiResult ChatsData * Ext;
  api_messages : Ext -> string -> ApiResult MessagesData * Ext;
  date_now : Ext -> Z;
  AVITO_USER_ID : Z;
  WEBHOOK_API_KEY : string;
  JSON_parse : string -> option WebhookJson;
  formatDate : Z -> string }.

Record World `{Env} := {
  ext : Ext;
  chatIndex : gmap string Summary;
  webhookSeen : gmap string Seen;
  syncState : SyncState;
  chatsDir : gmap string File;
  indexFile : option (gmap string Summary);
  syncStatusFile : option SyncState;
  webhookSeenFile : option (gmap string Seen) }.

(** ** The effect monad *)

Section Model.
Context `{Env}.

Definition M (A : Type) : Type := World -> A * World * list Event.

Definition ret {A : Type} (a : A) : M A := fun w => (a, w, []).

Definition bind {A B : Type} (m : M A) (k : A -> M B) : M B :=
  fun w =>
    let '(a, w1, e1) := m w in
    let '(b, w2, e2) := k a w1 in
    (b, w2, e1 ++ e2).

Definition gets {A : Type} (f : World -> A) : M A := fun w => (f w, w, []).
Definition modify (f : World -> World) : M unit := fun w => (tt, f w, []).
Definition emit (e : Event) : M unit := fun w => (tt, w, [e]).

Definition value_of {A : Type} (r : A * World * list Event) : A := fst (fst r).
Definition world_of {A : Type} (r : A * World * list Event) : World := snd (fst r).
Definition events_of {A : Type} (r : A * World * list Event) : list Event := snd r.

(** A run with [evs] put before its events. *)
Definition prepend {A : Type} (evs : list Event) (r : A * World * list Event)
    : A * World * list Event :=
  (value_of r, world_of r, evs ++ events_of r).

End Model.

Declare Scope sync_scope.
Delimit Scope sync_scope with sync.
Notation "x <- m ;; k" := (bind m (fun x => k))
  (at level 100, m at next level, right associativity) : sync_scope.
Notation "m ;; k" := (bind m (fun _ => k))
  (at level 100, right associativity) : sync_scope.
Local Open Scope sync_scope.

Section Server.
Context `{Env}.

(** *** Field updates of the state *)

Definition set_ext (e : Ext) (w : World) : World :=
  {| ext := e; chatIndex := chatIndex w; webhookSeen := webhookSeen w;
     syncState := syncState w; chatsDir := chatsDir w;
     indexFile := indexFile w; syncStatusFile := syncStatusFile w;
     webhookSeenFile := webhookSeenFile w |}.

Definition set_chatIndex (i : gmap string Summary) (w : World) : World :=
  {| ext := ext w; chatIndex := i; webhookSeen := webhookSeen w;
     syncState := syncState w; chatsDir := chatsDir w;
     indexFile := indexFile w; syncStatusFile := syncStatusFile w;
     webhookSeenFile := webhookSeenFile w |}.

Definition set_webhookSeen (s : gmap string Seen) (w : World) : World :=
  {| ext := ext w; chatIndex := chatIndex w; webhookSeen := s;
     syncState := syncState w; chatsDir := chatsDir w;
     indexFile := indexFile w; syncStatusFile := syncStatusFile w;
     webhookSeenFile := webhookSeenFile w |}.

Definition set_syncState (s : SyncState) (w : World) : World :=
  {| ext := ext w; chatIndex := chatIndex w; webhookSeen := webhookSeen w;
     syncState := s; chatsDir := chatsDir w;
     indexFile := indexFile w; syncStatusFile := syncStatusFile w;
     webhookSeenFile := webhookSeenFile w |}.

Definition set_chatsDir (d : gmap string File) (w : World) : World :=
  {| ext := ext w; chatIndex := chatIndex w; webhookSeen := webhookSeen w;
     syncState := syncState w; chatsDir := d;
     indexFile := indexFile w; syncStatusFile := syncStatusFile w;
     webhookSeenFile := webhookSeenFile w |}.

Definition set_indexFile (f : option (gmap string Summary)) (w : World) : World :=
  {| ext := ext w; chatIndex := chatIndex w; webhookSeen := webhookSeen w;
     syncState := syncState w; chatsDir := chatsDir w;
     indexFile := f; syncStatusFile := syncStatusFile w;
     webhookSeenFile := webhookSeenFile w |}.

Definition set_syncStatusFile (f : option SyncState) (w : World) : World :=
  {| ext := ext w; chatIndex := chatIndex w; webhookSeen := webhookSeen w;
     syncState := syncState w; chatsDir := chatsDir w;
     indexFile := indexFile w; syncStatusFile := f;
     webhookSeenFile := webhookSeenFile w |}.

Definition set_webhookSeenFile (f : option (gmap string Seen)) (w : World) : World :=
  {| ext := ext w; chatIndex := chatIndex w; webhookSeen := webhookSeen w;
     syncState := syncState w; chatsDir := chatsDir w;
     indexFile := indexFile w; syncStatusFile := syncStatusFile w;
     webhookSeenFile := f |}.

(** *** Logging, time, the remote API *)

(** [log(msg)]: one log line (the time prefix of the line is left out). *)
Definition log (m : LogMsg) : M unit := emit (EvLog m).

(** [sleep(ms)] *)
Definition sleep (ms : nat) : M unit := ret tt.

(** [Date.now()] / [new Date()] *)
Definition now : M Z := gets (fun w => date_now (ext w)).

(** [avitoApi('GET', `/messenger/v2/accounts/.../chats?...&offset=${offset}`)] *)
Definition avitoApi_chats (offset : nat) : M (ApiResult ChatsData) :=
  fun w =>
    let '(r, e) := api_chats (ext w) offset in
    (r, set_ext e w, [EvRequest (GetChats offset)]).

(** [avitoApi('GET', `/messenger/v3/accounts/.../chats/${chatId}/messages/...`)] *)
Definition avitoApi_messages (chatId : string) : M (ApiResult MessagesData) :=
  fun w =>
    let '(r, e) := api_messages (ext w) chatId in
    (r, set_ext e w, [EvRequest (GetMessages chatId)]).

(** *** Chat cache *)

(** [fs.writeFileSync(path.join(CHATS_DIR, name), ...)] *)
Definition writeChatFile (name : string) (f : File) : M unit :=
  modify (fun w => set_chatsDir (<[name := f]> (chatsDir w)) w).

(** [a.created || 0] *)
Definition created_or_0 (m : Message) : Z := default 0 (m_created m).

(** Stable insertion for [[...messages].sort((a, b) => (a.created || 0) -
    (b.created || 0))]: [Array.prototype.sort] is stable, so equal keys keep
    their order. *)
Fixpoint insert_by_created (m : Message) (l : list Message) : list Message :=
  match l with
  | [] => [m]
  | x :: t =>
      if created_or_0 m <=? created_or_0 x then m :: x :: t
      else x :: insert_by_created m t
  end.

Definition sort_by_created (l : list Message) : list Message :=
  foldr insert_by_created [] l.

(** [x || d] on a string that may be absent: the empty string is falsy. *)
Definition str_or (x : option string) (d : string) : string :=
  match x with
  | Some t => if String.eqb t "" then d else t
  | None => d
  end.

(** [(m.content && m.content.text) || `[${m.type || 'unknown'}]`] *)
Definition message_text (m : Message) : string :=
  str_or (m_content m ≫= text)
         ("[" +:+ str_or (m_type m) "unknown" +:+ "]").

(** A line of the transcript. *)
Definition transcript_line (m : Message) : string :=
  let dir :=
    match m_author_id m with
    | Some a => if a =? AVITO_USER_ID then "→ МЫ" else "← Клиент"
    | None => "← Клиент"
    end in
  "[" +:+ formatDate (created_or_0 m * 1000) +:+ "] " +:+ dir +:+ ": "
      +:+ String.substring 0 300 (message_text m).

Definition dashes (n : nat) : string := String.concat "" (replicate n "-").

Definition saveChatMessages (chatId : string) (messages : list Message) : M unit :=
  match messages with
  | [] => ret tt
  | _ :: _ =>
      let safe := safeName chatId in
      t <- now ;;
      writeChatFile (safe +:+ ".json")
        (JsonFile {| cc_chat_id := chatId; cc_messages := messages; cached_at := t |}) ;;
      let msgs := sort_by_created messages in
      let lines :=
        [ "Chat: " +:+ chatId;
          "Link: https://www.avito.ru/profile/messenger/channel/" +:+ chatId;
          "Messages: " +:+ pretty (length msgs);
          dashes 60 ] ++ map transcript_line msgs in
      writeChatFile ("chat_" +:+ safe +:+ ".txt") (TxtFile lines)
  end.

(** [updateChatCache].  Nothing in the [try] block throws here, so its
    [catch] branch (log and [return false]) has no counterpart. *)
Definition updateChatCache (chatId : string) : M bool :=
  data <- avitoApi_messages chatId ;;
  match data with
  | ApiData {| messages := Some msgs |} =>
      saveChatMessages chatId msgs ;;
      log (LogCacheUpdated chatId (length msgs)) ;;
      ret true
  | _ =>
      log (LogNoMessages chatId) ;;
      ret false
  end.

(** *** Index *)

(** The entry [periodicSync] builds for one listed chat. *)
Definition summary_of (chat : Chat) : Summary :=
  let lastMsg := last_message chat in
  {| updated := default 0 (lastMsg ≫= m_created);
     lastMsgId := default "" (lastMsg ≫= m_id);
     lastDir :=
       match lastMsg ≫= m_author_id with
       | Some a => if a =? AVITO_USER_ID then DirOut else DirIn
       | None => DirIn
       end;
     lastText := String.substring 0 100 (default "" ((lastMsg ≫= m_content) ≫= text));
     s_users :=
       let others :=
         List.filter
           (fun u => match u_id u with
                     | Some i => negb (i =? AVITO_USER_ID)
                     | None => true
                     end)
           (default [] (users chat)) in
       omap (M := list)
            (fun n => match n with
                      | Some n => if String.eqb n "" then None else Some n
                      | None => None
                      end)
            (map u_name others);
     item := match context chat ≫= value with Some v => title v | None => Some "" end;
     price := match context chat ≫= value with Some v => price_string v | None => Some "" end;
     itemUrl := match context chat ≫= value with Some v => url v | None => Some "" end |}.

(** [const newIndex = {}; for (const chat of allChats) newIndex[chat.id] = ...] *)
Definition buildIndex (allChats : list Chat) : gmap string Summary :=
  foldl (fun newIndex chat => <[chat_id chat := summary_of chat]> newIndex) ∅ allChats.

Definition saveIndex : M unit :=
  modify (fun w => set_indexFile (Some (chatIndex w)) w).

Definition saveWebhookSeen : M unit :=
  modify (fun w => set_webhookSeenFile (Some (webhookSeen w)) w).

(** *** Periodic sync *)

(** The offsets of [for (let offset = 0; offset <= 1000; offset += 100)]. *)
Definition page_offsets : list nat := map (fun k => 100 * k)%nat (seq 0 11).

(** The pagination loop; [allChats] is the array filled so far. *)
Fixpoint fetchChats (offsets : list nat) (allChats : list Chat) : M (list Chat) :=
  match offsets with
  | [] => ret allChats
  | offset :: later =>
      data <- avitoApi_chats offset ;;
      match data with
      | ApiData {| chats := Some page |} =>
          match page with
          | [] => ret allChats
          | _ :: _ =>
              let allChats := allChats ++ page in
              if (length page <? 100)%nat then ret allChats
              else (sleep 300 ;; fetchChats later allChats)
          end
      | _ => ret allChats
      end
  end.

(** The local counters [checked], [updated], [errors]. *)
Record Counters := { checked : nat; n_updated : nat; n_errors : nat }.

(** [(chat.last_message || {}).id || ''] *)
Definition chat_lastMsgId (chat : Chat) : string :=
  default "" (last_message chat ≫= m_id).

(** [!prev || prev.lastMsgId !== lastMsgId] *)
Definition needs_update (prev : option Summary) (listedMsgId : string) : bool :=
  match prev with
  | None => true
  | Some prev => negb (String.eqb (lastMsgId prev) listedMsgId)
  end.

(** The loop that determines which chats need an update and updates them. *)
Fixpoint refreshLoop (allChats : list Chat) (cnt : Counters) : M Counters :=
  match allChats with
  | [] => ret cnt
  | chat :: later =>
      let cnt := {| checked := S (checked cnt); n_updated := n_updated cnt;
                    n_errors := n_errors cnt |} in
      let id := chat_id chat in
      let lastMsgId := chat_lastMsgId chat in
      prev <- gets (fun w => chatIndex w !! id) ;;
      if needs_update prev lastMsgId then
        ok <- updateChatCache id ;;
        let cnt :=
          if ok : bool
          then {| checked := checked cnt; n_updated := S (n_updated cnt);
                  n_errors := n_errors cnt |}
          else {| checked := checked cnt; n_updated := n_updated cnt;
                  n_errors := S (n_errors cnt) |} in
        sleep 200 ;;
        refreshLoop later cnt
      else refreshLoop later cnt
  end.

(** [periodicSync].  [lastDuration] is kept in milliseconds (the source
    rounds it to tenths of a second).  [avitoApi] and [updateChatCache]
    catch their own errors, so nothing in the [try] block throws here and
    its [catch] branch (log and [errors++]) has no counterpart. *)
Definition periodicSync : M unit :=
  running <- gets (fun w => isRunning (syncState w)) ;;
  if running : bool then ret tt
  else
    modify (fun w =>
      let s := syncState w in
      set_syncState
        {| lastSync := lastSync s; lastDuration := lastDuration s;
           chatsChecked := chatsChecked s; chatsUpdated := chatsUpdated s;
           chatsMissed := chatsMissed s; isRunning := true; errors := errors s |} w) ;;
    startTime <- now ;;
    log LogSyncStart ;;
    allChats <- fetchChats page_offsets [] ;;
    log (LogFetched (length allChats)) ;;
    let newIndex := buildIndex allChats in
    cnt <- refreshLoop allChats {| checked := 0; n_updated := 0; n_errors := 0 |} ;;
    modify (set_chatIndex newIndex) ;;
    saveIndex ;;
    endTime <- now ;;
    let state :=
      {| lastSync := Some endTime; lastDuration := endTime - startTime;
         chatsChecked := checked cnt; chatsUpdated := n_updated cnt;
         chatsMissed := 0; isRunning := false; errors := n_errors cnt |} in
    modify (set_syncState state) ;;
    modify (set_syncStatusFile (Some state)) ;;
    saveWebhookSeen ;;
    if (0 <? n_updated cnt)%nat
    then log (LogSyncDone (checked cnt) (n_updated cnt))
    else log (LogSyncUpToDate (checked cnt)).

(** *** Request handlers *)

Definition sendJson (status : nat) (body : ResponseBody) : M unit :=
  emit (EvResponse status body).

Definition checkAuth (authorization : option string) : bool :=
  if String.eqb WEBHOOK_API_KEY "" then true
  else String.eqb (default "" authorization) ("Bearer " +:+ WEBHOOK_API_KEY).

(** [POST /webhook], from the request body on.  The refresh the handler
    starts without awaiting it is run to its end here. *)
Definition handle_webhook (body : string) : M unit :=
  sendJson 200 BodyOk ;;
  match JSON_parse body with
  | None => log LogWebhookParseError
  | Some payload =>
      log (LogWebhook (String.substring 0 300 body)) ;;
      match payload with
      | WJNull => log LogWebhookParseError
      | WJValue v =>
          let msgId := default "" (v ≫= wv_id) in
          match v ≫= wv_chat_id with
          | Some chatId =>
              if String.eqb chatId "" then ret tt
              else
                log (LogNewMessage chatId) ;;
                t <- now ;;
                modify (fun w =>
                  set_webhookSeen
                    (<[chatId := {| seen_lastMsgId := msgId; seen_at := t |}]>
                       (webhookSeen w)) w) ;;
                updateChatCache chatId ;;
                ret tt
          | None => ret tt
          end
      end
  end.

(** [GET /api/chats/{chatId}/messages], from the decoded [chatId] on. *)
Definition handle_chat_messages (authorization : option string) (chatId : string) : M unit :=
  if negb (checkAuth authorization) then sendJson 401 BodyUnauthorized
  else
    let safe := safeName chatId in
    f <- gets (fun w => chatsDir w !! (safe +:+ ".json")) ;;
    match f with
    | None => sendJson 404 (BodyNotInCache chatId)
    | Some (JsonFile data) => sendJson 200 (BodyCached data)
    | Some (TxtFile _) => sendJson 500 BodyError
    end.

End Server.

(** ** Vocabulary of the properties *)

Section Vocabulary.
Context `{Env}.

(** The state at process start: [chatIndex = {}], [webhookSeen = {}], the
    initial [syncState], an empty cache directory. *)
Definition initial_world (e : Ext) : World :=
  {| ext := e; chatIndex := ∅; webhookSeen := ∅;
     syncState := {| lastSync := None; lastDuration := 0; chatsChecked := 0;
                     chatsUpdated := 0; chatsMissed := 0; isRunning := false;
                     errors := 0 |};
     chatsDir := ∅; indexFile := None; syncStatusFile := None;
     webhookSeenFile := None |}.

(** A listed chat is dirty against an index when the sync's test
    [!prev || prev.lastMsgId !== lastMsgId] holds for it. *)
Definition is_dirty (index : gmap string Summary) (chat : Chat) : bool :=
  needs_update (index !! chat_id chat) (chat_lastMsgId chat).

(** The chats the pagination of a sweep started in [w] collects. *)
Definition sweep_listing (w : World) : list Chat :=
  value_of (fetchChats page_offsets [] w).

(** The conversation ids of the refresh requests among some events, in
    order, and the offsets of the listing requests. *)
Definition refresh_calls (evs : list Event) : list string :=
  omap (M := list)
       (fun e => match e with EvRequest (GetMessages id) => Some id | _ => None end) evs.

Definition listing_calls (evs : list Event) : list nat :=
  omap (M := list)
       (fun e => match e with EvRequest (GetChats o) => Some o | _ => None end) evs.

(** What [updateChatCache] returns when it is called for each id in turn. *)
Fixpoint refresh_results (ids : list string) (w : World) : list bool :=
  match ids with
  | [] => []
  | id :: later =>
      let r := updateChatCache id w in
      value_of r :: refresh_results later (world_of r)
  end.

Definition failures (results : list bool) : nat := length (List.filter negb results).
Definition successes (results : list bool) : nat := length (List.filter (fun b : bool => b) results).

(** A monadic action leaves a component [f] of the state as it was. *)
Definition keeps {A X : Type} (f : World -> X) (m : M A) : Prop :=
  forall w, f (world_of (m w)) = f w.

(** A monadic action neither reads nor writes what [g] changes. *)
Definition commutes_with {A : Type} (g : World -> World) (m : M A) : Prop :=
  forall w, m (g w) = let '(a, w', e) := m w in (a, g w', e).

(** A component of the state that is neither the remote state nor the
    cache directory. *)
Definition beside_cache {X : Type} (f : World -> X) : Prop :=
  (forall e w, f (set_ext e w) = f w) /\ (forall d w, f (set_chatsDir d w) = f w).

(** A change of the state that leaves the remote state, the cache
    directory and the index alone. *)
Definition bystander (g : World -> World) : Prop :=
  (forall e w, g (set_ext e w) = set_ext e (g w)) /\
  (forall d w, g (set_chatsDir d w) = set_chatsDir d (g w)) /\
  (forall w, ext (g w) = ext w) /\
  (forall w, chatsDir (g w) = chatsDir w) /\
  (forall w, chatIndex (g w) = chatIndex w).

(** The two files [saveChatMessages] writes for a chat. *)
Definition cache_files (chatId : string) (msgs : list Message) (t : Z)
    (dir : gmap string File) : gmap string File :=
  <[ "chat_" +:+ safeName chatId +:+ ".txt" :=
       TxtFile ([ "Chat: " +:+ chatId;
                  "Link: https://www.avito.ru/profile/messenger/channel/" +:+ chatId;
                  "Messages: " +:+ pretty (length (sort_by_created msgs));
                  dashes 60 ] ++ map transcript_line (sort_by_created msgs)) ]>
    (<[ safeName chatId +:+ ".json" :=
          JsonFile {| cc_chat_id := chatId; cc_messages := msgs; cached_at := t |} ]> dir).

(** The remote answers the listing requests at the offsets [offs], in
    order, with the full pages [pages], and the request after them fails:
    [avitoApi] gives [null] or a body without [chats]. *)
Fixpoint pages_then_failure (e : Ext) (offs : list nat) (pages : list (list Chat)) : Prop :=
  match offs with
  | [] => False
  | off :: offs' =>
      match pages with
      | [] =>
          fst (api_chats e off) = ApiNull \/
          exists d, fst (api_chats e off) = ApiData d /\ chats d = None
      | page :: later =>
          fst (api_chats e off) = ApiData {| chats := Some page |} /\
          (100 <= length page)%nat /\
          pages_then_failure (snd (api_chats e off)) offs' later
      end
  end.

(** The listed entries of one conversation, and the number of refresh
    requests made for it. *)
Definition listed_entries (id : string) (listed : list Chat) : list Chat :=
  List.filter (fun c => String.eqb id (chat_id c)) listed.

Definition calls_for (id : string) (evs : list Event) : nat :=
  length (List.filter (String.eqb id) (refresh_calls evs)).

(** The conversation id the webhook handler finds in a body, if any. *)
Definition webhook_chat_id (body : string) : option string :=
  match JSON_parse body with
  | Some (WJValue v) =>
      match v ≫= wv_chat_id with
      | Some chatId => if String.eqb chatId "" then None else Some chatId
      | None => None
      end
  | _ => None
  end.

(** The events contain no HTTP response. *)
Definition no_response (evs : list Event) : Prop :=
  forall status body, ~ In (EvResponse status body) evs.

(** Ascending order of the [created] stamps. *)
Fixpoint ascending_created (l : list Message) : bool :=
  match l with
  | [] => true
  | m :: t =>
      match t with
      | [] => true
      | m' :: _ => (created_or_0 m <=? created_or_0 m') && ascending_created t
      end
  end.

End Vocabulary.

(** ** Concrete environments *)

(** A remote that answers the listing by offset and the messages by chat
    id from fixed tables; its state counts the requests and drives the
    clock. *)
Definition scripted (pages : nat -> ApiResult ChatsData)
    (msgs : string -> ApiResult MessagesData)
    (parse : string -> option WebhookJson) : Env :=
  {| Ext := nat;
     api_chats := fun n off => (pages off, S n);
     api_messages := fun n id => (msgs id, S n);
     date_now := fun n => 1700000000000 + 1000 * Z.of_nat n;
     AVITO_USER_ID := 204620380;
     WEBHOOK_API_KEY := "";
     JSON_parse := parse;
     formatDate := fun _ => "01.01 00:00" |}.

Definition text_message (id : string) (at_ : Z) (author : Z) (body : string) : Message :=
  {| m_id := Some id; m_created := Some at_; m_author_id := Some author;
     m_type := Some "text"; m_content := Some {| text := Some body |} |}.

Definition listed_chat (id : string) (last : string) : Chat :=
  {| chat_id := id;
     last_message := Some (text_message last 1700000000 7 "hello");
     users := Some [ {| u_id := Some 7; u_name := Some "Ivan" |} ];
     context := None |}.

(** A remote that is down: every request fails. *)
Definition quiet : Env :=
  scripted (fun _ => ApiNull) (fun _ => ApiNull) (fun _ => None).

(** The state of [quiet] while a sync is in flight. *)
Definition running_world : @World quiet :=
  set_syncState
    {| lastSync := None; lastDuration := 0; chatsChecked := 0; chatsUpdated := 0;
       chatsMissed := 0; isRunning := true; errors := 0 |}
    (@initial_world quiet 0%nat).

(** A listing whose only page names the conversation [a] twice, as
    offset pagination does when the list shifts between two pages. *)
Definition twice_listed : Env :=
  scripted
    (fun off => if Nat.eqb off 0
                then ApiData {| chats := Some [listed_chat "a" "m1"; listed_chat "a" "m1"] |}
                else ApiNull)
    (fun _ => ApiData {| messages := Some [text_message "m1" 5 7 "x"] |})
    (fun _ => None).

(** Two listed conversations; the messages of [a] cannot be fetched,
    those of [b] can. *)
Definition flaky : Env :=
  scripted
    (fun off => if Nat.eqb off 0
                then ApiData {| chats := Some [listed_chat "a" "m1"; listed_chat "b" "m2"] |}
                else ApiNull)
    (fun id => if String.eqb id "a" then ApiNull
               else ApiData {| messages := Some [text_message "m2" 5 7 "x"] |})
    (fun _ => None).

(** A hundred conversations [00] ... [99], and a remote that lists them
    as its first page and fails on the second; their messages can be
    fetched. *)
Definition hundred_chats : list Chat :=
  map (fun k => listed_chat
                  (String (ascii_of_nat (48 + k / 10))
                     (String (ascii_of_nat (48 + k mod 10)) EmptyString)) "m1")
      (seq 0 100).

Definition one_page_then_down : Env :=
  scripted
    (fun off => if Nat.eqb off 0 then ApiData {| chats := Some hundred_chats |}
                else ApiNull)
    (fun _ => ApiData {| messages := Some [text_message "m1" 5 7 "x"] |})
    (fun _ => None).

(** A remote that answers every messages request with an empty batch. *)
Definition empty_thread : Env :=
  scripted (fun _ => ApiNull) (fun _ => ApiData {| messages := Some [] |})
    (fun _ => None).

(** Two messages, the newer one first, as the remote sends them. *)
Definition newest_first : list Message :=
  [text_message "m2" 20 7 "second"; text_message "m1" 10 7 "first"].

(** ** More of the server: persistence across restarts *)

Section Persistence.
Context `{Env}.




(** The names of the two files of a chat. *)
Definition json_file (chatId : string) : string := safeName chatId +:+ ".json".
Definition txt_file (chatId : string) : string := "chat_" +:+ safeName chatId +:+ ".txt".

(** The remote answers the listing requests at the offsets [offs], in
    order, with the full pages [pages]; then the offsets are used up (and
    [tail] is empty), or the next request is answered with the page [tail]
    of fewer than 100 chats, possibly none. *)
Fixpoint pages_then_end (e : Ext) (offs : list nat) (pages : list (list Chat))
    (tail : list Chat) : Prop :=
  match pages with
  | [] =>
      match offs with
      | [] => tail = []
      | off :: _ =>
          fst (api_chats e off) = ApiData {| chats := Some tail |} /\
          (length tail < 100)%nat
      end
  | page :: later =>
      match offs with
      | [] => False
      | off :: offs' =>
          fst (api_chats e off) = ApiData {| chats := Some page |} /\
          (100 <= length page)%nat /\
          pages_then_end (snd (api_chats e off)) offs' later tail
      end
  end.

(** The entries of a listing that name the same conversation agree on its
    last message id. *)
Definition consistent_listing (listed : list Chat) : Prop :=
  forall c1 c2, In c1 listed -> In c2 listed -> chat_id c1 = chat_id c2 ->
    chat_lastMsgId c1 = chat_lastMsgId c2.

End Persistence.


(** ** More concrete environments *)


(** A remote whose messages can be fetched, and a body parser that reads
    the text [chat u2i-1 m9] as a notification for the conversation
    [u2i-1] with the message id [m9]. *)
Definition notified : Env :=
  scripted (fun _ => ApiNull)
    (fun _ => ApiData {| messages := Some newest_first |})
    (fun body =>
       if String.eqb body "chat u2i-1 m9"
       then Some (WJValue (Some {| wv_chat_id := Some "u2i-1"; wv_id := Some "m9" |}))
       else None).


(** ** The server as a sequence of operations *)

Section Operations.
Context `{Env}.






End Operations.


(** ** The remote API client: token cache and [avitoApi] *)

(** The two requests the client sends: the token request with the client
    credentials, and an API request with its bearer token ([None] is a
    token that is [undefined] in the source). *)
Inductive HttpRequest :=
  | PostToken
  | ApiCall (method path : string) (bearer : option string).

(** What [httpsRequest] settles to: a rejection (network error, timeout)
    or a response with its status and body. *)
Inductive HttpResult :=
  | HttpRejected
  | HttpResponse (status : Z) (body : string).

(** The fields [getToken] reads from the parsed token response. *)
Record TokenData := { access_token : option string; expires_in : option Z }.

(** [tokenCache].  [expiresAt] is [None] where the source computes [NaN]
    (a response without [expires_in]). *)
Record TokenCache := { token : option string; expiresAt : option Z }.

Inductive ClientLog :=
  | LogRefreshingToken
  | LogTokenRefreshFailed (status : Z)
  | LogTokenRefreshed
  | LogApiError (method path : string).

Inductive ClientEvent :=
  | ClientLogged (m : ClientLog)
  | ClientSent (r : HttpRequest).

(** A function that returns or throws. *)
Inductive Outcome (A : Type) : Type :=
  | Returned (a : A)
  | Thrown.
Arguments Returned {A} a.
Arguments Thrown {A}.

(** The network with its state and clock, and [JSON.parse] on the two
    kinds of body: for a token response [None] is a parse error or a body
    whose fields cannot be read; for an API response [None] is a parse
    error and [Some None] the JSON value [null]. *)
Class Network := {
  Net : Type;
  Json : Type;
  httpsRequest : Net -> HttpRequest -> HttpResult * Net;
  net_now : Net -> Z;
  JSON_parse_token : string -> option TokenData;
  JSON_parse_body : string -> option (option Json) }.

Record ClientState `{Network} := { net : Net; tokenCache : TokenCache }.

Section Client.
Context `{Network}.

(** [x] is truthy, for a string that may be [null] or [undefined]. *)
Definition truthy (x : option string) : bool :=
  match x with
  | Some s => negb (String.eqb s "")
  | None => false
  end.

(** [tokenCache.token && tokenCache.expiresAt > now + 3600000] *)
Definition token_is_fresh (c : TokenCache) (now : Z) : bool :=
  truthy (token c) &&
  match expiresAt c with
  | Some e => now + 3600000 <? e
  | None => false
  end.

Definition getToken (s : ClientState)
    : Outcome (option string) * ClientState * list ClientEvent :=
  let now := net_now (net s) in
  if token_is_fresh (tokenCache s) now then (Returned (token (tokenCache s)), s, [])
  else
    let '(res, n) := httpsRequest (net s) PostToken in
    let sent := [ClientLogged LogRefreshingToken; ClientSent PostToken] in
    let s1 := {| net := n; tokenCache := tokenCache s |} in
    match res with
    | HttpRejected => (Thrown, s1, sent)
    | HttpResponse status body =>
        if status =? 200 then
          match JSON_parse_token body with
          | None => (Thrown, s1, sent)
          | Some data =>
              let cache :=
                {| token := access_token data;
                   expiresAt := (fun e => now + e * 1000) <$> expires_in data |} in
              (Returned (token cache), {| net := n; tokenCache := cache |},
               sent ++ [ClientLogged LogTokenRefreshed])
          end
        else (Thrown, s1, sent ++ [ClientLogged (LogTokenRefreshFailed status)])
    end.

(** [return JSON.parse(body)] inside the [try] of [avitoApi]. *)
Definition parsed_body (method path body : string) (s : ClientState)
    (evs : list ClientEvent) : ApiResult Json * ClientState * list ClientEvent :=
  match JSON_parse_body body with
  | Some (Some j) => (ApiData j, s, evs)
  | Some None => (ApiNull, s, evs)
  | None => (ApiNull, s, evs ++ [ClientLogged (LogApiError method path)])
  end.

Definition avitoApi (method path : string) (s : ClientState)
    : ApiResult Json * ClientState * list ClientEvent :=
  let failed := [ClientLogged (LogApiError method path)] in
  match getToken s with
  | (Thrown, s1, e1) => (ApiNull, s1, e1 ++ failed)
  | (Returned tok, s1, e1) =>
      let '(res, n2) := httpsRequest (net s1) (ApiCall method path tok) in
      let e2 := e1 ++ [ClientSent (ApiCall method path tok)] in
      match res with
      | HttpRejected => (ApiNull, {| net := n2; tokenCache := tokenCache s1 |}, e2 ++ failed)
      | HttpResponse status body =>
          if status =? 401 then
            let s3 :=
              {| net := n2;
                 tokenCache := {| token := None;
                                  expiresAt := expiresAt (tokenCache s1) |} |} in
            match getToken s3 with
            | (Thrown, s4, e4) => (ApiNull, s4, e2 ++ e4 ++ failed)
            | (Returned newToken, s4, e4) =>
                let '(retry, n5) := httpsRequest (net s4) (ApiCall method path newToken) in
                let e5 := e2 ++ e4 ++ [ClientSent (ApiCall method path newToken)] in
                let s5 := {| net := n5; tokenCache := tokenCache s4 |} in
                match retry with
                | HttpRejected => (ApiNull, s5, e5 ++ failed)
                | HttpResponse _ body' => parsed_body method path body' s5 e5
                end
            end
          else parsed_body method path body
                 {| net := n2; tokenCache := tokenCache s1 |} e2
      end
  end.

(** The requests of each kind among the events of the client. *)
Definition token_requests (evs : list ClientEvent) : nat :=
  length (List.filter (fun e => match e with ClientSent PostToken => true | _ => false end) evs).

Definition api_requests (evs : list ClientEvent) : list (option string) :=
  omap (M := list)
       (fun e => match e with ClientSent (ApiCall _ _ b) => Some b | _ => None end) evs.

End Client.

(** A network for examples: its state is the list of answers still to
    come, one per request; the clock stands still; a token body is read as
    a token named by the body that lives two hours, an API body as itself. *)
Definition scripted_network : Network :=
  {| Net := list HttpResult;
     Json := string;
     httpsRequest := fun n _ =>
       match n with
       | [] => (HttpRejected, [])
       | r :: later => (r, later)
       end;
     net_now := fun _ => 1700000000000;
     JSON_parse_token := fun body =>
       Some {| access_token := Some body; expires_in := Some 7200 |};
     JSON_parse_body := fun body => Some (Some body) |}.

(** The client of [scripted_network] at process start. *)
Definition fresh_client (answers : list HttpResult) : @ClientState scripted_network :=
  @Build_ClientState scripted_network answers {| token := None; expiresAt := Some 0 |}.


(** The parts of a run of the client. *)
Section ClientRuns.
Context `{Network}.

Definition result_of {A : Type} (r : A * ClientState * list ClientEvent) : A := fst (fst r).
Definition client_of {A : Type} (r : A * ClientState * list ClientEvent) : ClientState :=
  snd (fst r).
Definition trace_of {A : Type} (r : A * ClientState * list ClientEvent) : list ClientEvent :=
  snd r.

(** The token request is not answered with a usable token: it is rejected,
    answered with another status than 200, or its body cannot be read. *)
Definition token_request_fails (n : Net) : Prop :=
  match fst (httpsRequest n PostToken) with
  | HttpRejected => True
  | HttpResponse status body => status <> 200 \/ JSON_parse_token body = None
  end.

(** [JSON.parse(body)] as the result of [avitoApi]. *)
Definition body_result (body : string) : ApiResult Json :=
  match JSON_parse_body body with
  | Some (Some j) => ApiData j
  | _ => ApiNull
  end.

End ClientRuns.


(** The state of [quiet] with one conversation in the index. *)
Definition indexed_world : @World quiet :=
  set_chatIndex (@buildIndex quiet [listed_chat "a" "m1"]) (@initial_world quiet 0%nat).


(** ** The listing endpoints: [GET /api/chats] and [GET /api/unread] *)

(** An element of the [chats] array of both answers:
    [{ chat_id, link, ...info, lastDate }].  [lastDate] is the instant, in
    milliseconds, whose ISO string is sent, or [None] for [null]. *)
Record ChatEntry := {
  ce_chat_id : string;
  ce_link : string;
  ce_info : Summary;
  ce_lastDate : option Z }.

(** The bodies the two endpoints send. *)
Inductive ListingBody :=
  | ListingUnauthorized
  | ListingChats (total : nat) (offset limit : Z) (chats : list ChatEntry)
  | ListingUnread (count : nat) (days : Z) (chats : list ChatEntry).

Section Listings.
Context `{Env}.

(** [Object.entries(chatIndex)]: the entries in the order JavaScript
    enumerates the keys, which a map of the model does not record. *)
Variable Object_entries : gmap string Summary -> list (string * Summary).

(** [info.updated > Date.now() / 1000 - days * 86400], a comparison in
    floating point, given the stamp, the clock in milliseconds and the
    days. *)
Variable newer_than_cutoff : Z -> Z -> Z -> bool.

(** [parseInt(...) || d]: [None] is [NaN]. *)
Definition int_or (x : option Z) (d : Z) : Z :=
  match x with
  | Some n => if n =? 0 then d else n
  | None => d
  end.

(** Stable insertion for [.sort((a, b) => (b[1].updated || 0) -
    (a[1].updated || 0))]: descending stamps, equal stamps in the order of
    the entries. *)
Fixpoint insert_by_updated (kv : string * Summary) (l : list (string * Summary))
    : list (string * Summary) :=
  match l with
  | [] => [kv]
  | x :: t =>
      if updated (snd x) <=? updated (snd kv) then kv :: x :: t
      else x :: insert_by_updated kv t
  end.

Definition sort_by_updated (l : list (string * Summary)) : list (string * Summary) :=
  foldr insert_by_updated [] l.

(** [Array.prototype.slice(start, end)] on integers: a negative bound
    counts from the end of the array. *)
Definition slice {A : Type} (start stop : Z) (l : list A) : list A :=
  let len := Z.of_nat (length l) in
  let k := if start <? 0 then Z.max (len + start) 0 else Z.min start len in
  let fin := if stop <? 0 then Z.max (len + stop) 0 else Z.min stop len in
  take (Z.to_nat (fin - k)) (drop (Z.to_nat k) l).

Definition chat_entry (kv : string * Summary) : ChatEntry :=
  {| ce_chat_id := fst kv;
     ce_link := "https://www.avito.ru/profile/messenger/channel/" +:+ fst kv;
     ce_info := snd kv;
     ce_lastDate := if updated (snd kv) =? 0 then None else Some (updated (snd kv) * 1000) |}.

(** [GET /api/chats], from the parsed query on, as the status and body it
    sends; it reads [chatIndex] and changes nothing. *)
Definition handle_list_chats (authorization : option string) (limit offset : option Z)
    (w : World) : nat * ListingBody :=
  if negb (checkAuth authorization) then (401%nat, ListingUnauthorized)
  else
    let limit := int_or limit 50 in
    let offset := int_or offset 0 in
    let entries :=
      map chat_entry
        (slice offset (offset + limit) (sort_by_updated (Object_entries (chatIndex w)))) in
    (200%nat,
     ListingChats (length (Object_entries (chatIndex w))) offset limit entries).

(** [GET /api/unread], likewise. *)
Definition handle_unread (authorization : option string) (days : option Z)
    (w : World) : nat * ListingBody :=
  if negb (checkAuth authorization) then (401%nat, ListingUnauthorized)
  else
    let days := int_or days 3 in
    let unread :=
      map chat_entry
        (sort_by_updated
           (List.filter
              (fun kv => match lastDir (snd kv) with
                         | DirIn => newer_than_cutoff (updated (snd kv)) (date_now (ext w)) days
                         | DirOut => false
                         end)
              (Object_entries (chatIndex w)))) in
    (200%nat, ListingUnread (length unread) days unread).

(** The [chats] of an answer. *)
Definition listed_in (r : nat * ListingBody) : list ChatEntry :=
  match snd r with
  | ListingUnauthorized => []
  | ListingChats _ _ _ chats => chats
  | ListingUnread _ _ chats => chats
  end.

(** Descending order of the stamps of some entries. *)
Fixpoint descending_updated (l : list ChatEntry) : bool :=
  match l with
  | [] => true
  | e :: t =>
      match t with
      | [] => true
      | e' :: _ => (updated (ce_info e') <=? updated (ce_info e)) && descending_updated t
      end
  end.

End Listings.

(** The comparison with the cutoff done exactly, in milliseconds. *)
Definition exact_cutoff (stamp now days : Z) : bool :=
  now - days * 86400000 <? stamp * 1000.

(** The state of [quiet] with three conversations in the index, the
    second one answered by the operator. *)
Definition three_chats : @World quiet :=
  set_chatIndex
    (<["a" := {| updated := 1700000100; lastMsgId := "m1"; lastDir := DirIn;
                 lastText := "hi"; s_users := ["Ivan"]; item := Some "";
                 price := Some ""; itemUrl := Some "" |}]>
     (<["b" := {| updated := 1700000300; lastMsgId := "m2"; lastDir := DirOut;
                  lastText := "ok"; s_users := ["Olga"]; item := Some "";
                  price := Some ""; itemUrl := Some "" |}]>
      (<["c" := {| updated := 1700000200; lastMsgId := "m3"; lastDir := DirIn;
                   lastText := "yo"; s_users := ["Petr"]; item := Some "";
                   price := Some ""; itemUrl := Some "" |}]> ∅)))
    (@initial_world quiet 0%nat).


(** The state of [flaky] with the messages of a conversation [c] cached. *)
Definition cached_c_world : @World flaky :=
  world_of (@saveChatMessages flaky "c" newest_first (@initial_world flaky 0%nat)).

(** A client whose first API request is answered with 401, and whose
    second one is again; and a client whose API request is answered with
    500. *)
Definition refused_twice : @ClientState scripted_network :=
  fresh_client [HttpResponse 200 "t1"; HttpResponse 401 "no";
                HttpResponse 200 "t2"; HttpResponse 401 "again"].

Definition server_error : @ClientState scripted_network :=
  fresh_client [HttpResponse 200 "t1"; HttpResponse 500 "internal error"].


(** Projections of a run that is given as a triple. *)
Ltac project_run :=
  repeat match goal with
    | |- context [events_of (?a, ?w, ?e)] => change (events_of (a, w, e)) with e
    | |- context [value_of (?a, ?w, ?e)] => change (value_of (a, w, e)) with a
    | |- context [world_of (?a, ?w, ?e)] => change (world_of (a, w, e)) with w
    end.

(** * Properties *)

(** ** The encoding of chat ids *)

Lemma safeName_idempotent (s : string) : safeName (safeName s) = safeName s.
Proof.
  induction s as [|c s IH]; [reflexivity|].
  cbn [safeName]. destruct (Ascii.eqb c "/") eqn:E.
  - cbn. now rewrite IH.
  - cbn [safeName]. now rewrite E, IH.
Qed.

(** The head of an encoded id is never a character that the encoding did
    not put there or copy. *)
Lemma safeName_head_copied (c : ascii) (s t : string) :
  safeName s = String c t -> Ascii.eqb c "%" = false ->
  exists s', s = String c s' /\ t = safeName s'.
Proof.
  destruct s as [|d s]; [discriminate|]. cbn [safeName].
  destruct (Ascii.eqb d "/") eqn:E; intros H Hc.
  - injection H as <- _. discriminate.
  - injection H as <- <-. eauto.
Qed.

Lemma decodeName_safeName (s : string) :
  has_escape s = false -> decodeName (safeName s) = s.
Proof.
  induction s as [|c s IH]; [reflexivity|].
  cbn [has_escape]. intros H.
  apply orb_false_iff in H as [Hpre Hrest]. specialize (IH Hrest).
  cbn [safeName]. destruct (Ascii.eqb c "/") eqn:E.
  - apply Ascii.eqb_eq in E as ->. cbn. now rewrite IH.
  - cbn [decodeName].
    destruct (safeName s) as [|c1 [|c2 r]] eqn:Es.
    + now rewrite <- IH.
    + rewrite <- IH. reflexivity.
    + destruct (Ascii.eqb c "%" && Ascii.eqb c1 "2" && Ascii.eqb c2 "F") eqn:T.
      * exfalso.
        apply andb_true_iff in T as [T T3]. apply andb_true_iff in T as [T1 T2].
        apply Ascii.eqb_eq in T2 as ->. apply Ascii.eqb_eq in T3 as ->.
        apply safeName_head_copied in Es as (s1 & -> & Es1); [|reflexivity].
        symmetry in Es1.
        apply safeName_head_copied in Es1 as (s2 & -> & _); [|reflexivity].
        rewrite T1 in Hpre. cbn in Hpre.
        destruct s2; discriminate.
      * now rewrite <- IH.
Qed.

(** ** Laws of the effect monad *)

Section MonadLaws.
Context `{Env}.

Lemma bind_run {A B : Type} (m : M A) (k : A -> M B) (w : World) :
  bind m k w =
  (value_of (k (value_of (m w)) (world_of (m w))),
   world_of (k (value_of (m w)) (world_of (m w))),
   events_of (m w) ++ events_of (k (value_of (m w)) (world_of (m w)))).
Proof.
  unfold bind, value_of, world_of, events_of.
  destruct (m w) as [[a w1] e1]. cbn.
  destruct (k a w1) as [[b w2] e2]. reflexivity.
Qed.

Lemma bind_prepend {A B : Type} (m : M A) (k : A -> M B) (w : World) :
  bind m k w = prepend (events_of (m w)) (k (value_of (m w)) (world_of (m w))).
Proof. rewrite bind_run. reflexivity. Qed.

Lemma prepend_tuple {A : Type} (evs : list Event) (a : A) (w : World) (e : list Event) :
  prepend evs (a, w, e) = (a, w, evs ++ e).
Proof. reflexivity. Qed.

Lemma commutes_value {A : Type} (g : World -> World) (m : M A) (w : World) :
  commutes_with g m -> value_of (m (g w)) = value_of (m w).
Proof. intros Hm. rewrite Hm. now destruct (m w) as [[a w1] e1]. Qed.

Lemma commutes_world {A : Type} (g : World -> World) (m : M A) (w : World) :
  commutes_with g m -> world_of (m (g w)) = g (world_of (m w)).
Proof. intros Hm. rewrite Hm. now destruct (m w) as [[a w1] e1]. Qed.

Lemma commutes_events {A : Type} (g : World -> World) (m : M A) (w : World) :
  commutes_with g m -> events_of (m (g w)) = events_of (m w).
Proof. intros Hm. rewrite Hm. now destruct (m w) as [[a w1] e1]. Qed.

End MonadLaws.

(** ** The chat cache *)

Section CacheFacts.
Context `{Env}.

Lemma saveChatMessages_run (chatId : string) (msgs : list Message) (w : World) :
  saveChatMessages chatId msgs w =
  (tt,
   match msgs with
   | [] => w
   | _ :: _ => set_chatsDir (cache_files chatId msgs (date_now (ext w)) (chatsDir w)) w
   end,
   []).
Proof. destruct msgs; reflexivity. Qed.

Lemma updateChatCache_run (chatId : string) (w : World) :
  updateChatCache chatId w =
  match fst (api_messages (ext w) chatId) with
  | ApiData {| messages := Some msgs |} =>
      (true,
       world_of (saveChatMessages chatId msgs (set_ext (snd (api_messages (ext w) chatId)) w)),
       [EvRequest (GetMessages chatId); EvLog (LogCacheUpdated chatId (length msgs))])
  | _ =>
      (false, set_ext (snd (api_messages (ext w) chatId)) w,
       [EvRequest (GetMessages chatId); EvLog (LogNoMessages chatId)])
  end.
Proof.
  unfold updateChatCache, bind, avitoApi_messages.
  destruct (api_messages (ext w) chatId) as [r e]. cbn [fst snd].
  destruct r as [|[[msgs|]]]; try reflexivity.
  rewrite saveChatMessages_run. reflexivity.
Qed.

Lemma keeps_saveChatMessages {X : Type} (f : World -> X) chatId msgs :
  beside_cache f -> keeps f (saveChatMessages chatId msgs).
Proof.
  intros [_ Hd] w. rewrite saveChatMessages_run. unfold world_of. cbn.
  destruct msgs; [reflexivity | apply Hd].
Qed.

Lemma keeps_updateChatCache {X : Type} (f : World -> X) chatId :
  beside_cache f -> keeps f (updateChatCache chatId).
Proof.
  intros Hf w. rewrite updateChatCache_run.
  destruct (fst (api_messages (ext w) chatId)) as [|[[msgs|]]].
  - apply Hf.
  - unfold world_of at 1. cbn [fst snd].
    rewrite (keeps_saveChatMessages f chatId msgs Hf). apply Hf.
  - apply Hf.
Qed.

Lemma commutes_saveChatMessages (g : World -> World) chatId msgs :
  bystander g -> commutes_with g (saveChatMessages chatId msgs).
Proof.
  intros (_ & Hd & He & Hc & _) w. rewrite !saveChatMessages_run.
  destruct msgs; [reflexivity|]. now rewrite He, Hc, Hd.
Qed.

Lemma commutes_updateChatCache (g : World -> World) chatId :
  bystander g -> commutes_with g (updateChatCache chatId).
Proof.
  intros Hg w. pose proof Hg as (He & Hd & Hx & Hc & _).
  rewrite !updateChatCache_run, Hx.
  destruct (fst (api_messages (ext w) chatId)) as [|[[msgs|]]].
  - now rewrite He.
  - now rewrite <- He, (commutes_world g _ _ (commutes_saveChatMessages g chatId msgs Hg)).
  - now rewrite He.
Qed.

Lemma updateChatCache_calls chatId w :
  refresh_calls (events_of (updateChatCache chatId w)) = [chatId] /\
  listing_calls (events_of (updateChatCache chatId w)) = [].
Proof.
  rewrite updateChatCache_run.
  destruct (fst (api_messages (ext w) chatId)) as [|[[msgs|]]]; split; reflexivity.
Qed.

Lemma bystander_set_syncState (s : SyncState) : bystander (set_syncState s).
Proof. repeat split. Qed.

Lemma bystander_set_webhookSeen (s : gmap string Seen) : bystander (set_webhookSeen s).
Proof. repeat split. Qed.

Lemma beside_cache_chatIndex : beside_cache chatIndex.
Proof. split; reflexivity. Qed.

Lemma beside_cache_webhookSeen : beside_cache webhookSeen.
Proof. split; reflexivity. Qed.

End CacheFacts.

(** ** The two loops of the sync *)

Section LoopFacts.
Context `{Env}.

Lemma fetchChats_step (off : nat) (later : list nat) (acc : list Chat) (w : World) :
  fetchChats (off :: later) acc w =
  let w1 := set_ext (snd (api_chats (ext w) off)) w in
  match fst (api_chats (ext w) off) with
  | ApiData {| chats := Some (c :: page) |} =>
      if (length (c :: page) <? 100)%nat
      then (acc ++ c :: page, w1, [EvRequest (GetChats off)])
      else (value_of (fetchChats later (acc ++ c :: page) w1),
            world_of (fetchChats later (acc ++ c :: page) w1),
            EvRequest (GetChats off) :: events_of (fetchChats later (acc ++ c :: page) w1))
  | _ => (acc, w1, [EvRequest (GetChats off)])
  end.
Proof.
  cbn [fetchChats]. unfold bind at 1. unfold avitoApi_chats.
  destruct (api_chats (ext w) off) as [r e]. cbn [fst snd].
  destruct r as [|[[[|c page]|]]]; try reflexivity.
  destruct (length (c :: page) <? 100)%nat; [reflexivity|].
  unfold sleep. rewrite bind_run. reflexivity.
Qed.

Lemma keeps_fetchChats {X : Type} (f : World -> X) offs acc :
  (forall e w, f (set_ext e w) = f w) -> keeps f (fetchChats offs acc).
Proof.
  intros Hf. revert acc. induction offs as [|off later IH]; intros acc w.
  - reflexivity.
  - rewrite fetchChats_step. cbn zeta.
    destruct (fst (api_chats (ext w) off)) as [|[[[|c page]|]]]; try apply Hf.
    destruct (length (c :: page) <? 100)%nat; [apply Hf|].
    unfold world_of at 1. cbn [fst snd]. rewrite IH. apply Hf.
Qed.

Lemma commutes_fetchChats (g : World -> World) offs acc :
  bystander g -> commutes_with g (fetchChats offs acc).
Proof.
  intros Hg. pose proof Hg as (He & _ & Hx & _).
  revert acc. induction offs as [|off later IH]; intros acc w.
  - reflexivity.
  - rewrite !fetchChats_step. cbn zeta. rewrite Hx, <- He.
    destruct (fst (api_chats (ext w) off)) as [|[[[|c page]|]]]; try reflexivity.
    destruct (length (c :: page) <? 100)%nat; [reflexivity|].
    rewrite (commutes_value g _ _ (IH _)), (commutes_world g _ _ (IH _)),
      (commutes_events g _ _ (IH _)). reflexivity.
Qed.

Lemma fetchChats_calls offs acc w :
  refresh_calls (events_of (fetchChats offs acc w)) = [].
Proof.
  revert acc w. induction offs as [|off later IH]; intros acc w.
  - reflexivity.
  - rewrite fetchChats_step. cbn zeta.
    destruct (fst (api_chats (ext w) off)) as [|[[[|c page]|]]]; try reflexivity.
    destruct (length (c :: page) <? 100)%nat; [reflexivity|].
    unfold events_of at 1. cbn [snd]. apply IH.
Qed.

Lemma refreshLoop_step (chat : Chat) (later : list Chat) (cnt : Counters) (w : World) :
  refreshLoop (chat :: later) cnt w =
  if is_dirty (chatIndex w) chat then
    let r := updateChatCache (chat_id chat) w in
    let cnt' :=
      if value_of r
      then {| checked := S (checked cnt); n_updated := S (n_updated cnt);
              n_errors := n_errors cnt |}
      else {| checked := S (checked cnt); n_updated := n_updated cnt;
              n_errors := S (n_errors cnt) |} in
    (value_of (refreshLoop later cnt' (world_of r)),
     world_of (refreshLoop later cnt' (world_of r)),
     events_of r ++ events_of (refreshLoop later cnt' (world_of r)))
  else
    refreshLoop later
      {| checked := S (checked cnt); n_updated := n_updated cnt;
         n_errors := n_errors cnt |} w.
Proof.
  cbn [refreshLoop]. unfold bind at 1. unfold gets at 1. unfold is_dirty.
  destruct (needs_update (chatIndex w !! chat_id chat) (chat_lastMsgId chat)).
  - rewrite bind_run. unfold sleep. rewrite bind_run. cbn.
    destruct (value_of (updateChatCache (chat_id chat) w)); reflexivity.
  - cbn. now destruct (refreshLoop later _ w) as [[c w'] e].
Qed.

Lemma keeps_refreshLoop {X : Type} (f : World -> X) chats cnt :
  beside_cache f -> keeps f (refreshLoop chats cnt).
Proof.
  intros Hf. revert cnt. induction chats as [|chat later IH]; intros cnt w.
  - reflexivity.
  - rewrite refreshLoop_step.
    destruct (is_dirty (chatIndex w) chat); [|apply IH].
    cbn zeta. unfold world_of at 1. cbn [fst snd].
    rewrite IH. now apply keeps_updateChatCache.
Qed.

Lemma commutes_refreshLoop (g : World -> World) chats cnt :
  bystander g -> commutes_with g (refreshLoop chats cnt).
Proof.
  intros Hg. pose proof Hg as (_ & _ & _ & _ & Hi).
  revert cnt. induction chats as [|chat later IH]; intros cnt w.
  - reflexivity.
  - rewrite !refreshLoop_step, Hi.
    destruct (is_dirty (chatIndex w) chat); [|apply IH].
    cbn zeta.
    rewrite (commutes_value g _ _ (commutes_updateChatCache g _ Hg)),
      (commutes_world g _ _ (commutes_updateChatCache g _ Hg)),
      (commutes_events g _ _ (commutes_updateChatCache g _ Hg)).
    rewrite (commutes_value g _ _ (IH _)), (commutes_world g _ _ (IH _)),
      (commutes_events g _ _ (IH _)). reflexivity.
Qed.

Lemma refresh_calls_app (e1 e2 : list Event) :
  refresh_calls (e1 ++ e2) = refresh_calls e1 ++ refresh_calls e2.
Proof. unfold refresh_calls. apply omap_app. Qed.

Lemma listing_calls_app (e1 e2 : list Event) :
  listing_calls (e1 ++ e2) = listing_calls e1 ++ listing_calls e2.
Proof. unfold listing_calls. apply omap_app. Qed.

(** What one run of the refresh loop does, from any counters and state. *)
Lemma refreshLoop_spec (chats : list Chat) (cnt : Counters) (w : World) :
  let r := refreshLoop chats cnt w in
  let ids := map chat_id (List.filter (is_dirty (chatIndex w)) chats) in
  refresh_calls (events_of r) = ids /\
  listing_calls (events_of r) = [] /\
  checked (value_of r) = (checked cnt + length chats)%nat /\
  n_errors (value_of r) = (n_errors cnt + failures (refresh_results ids w))%nat /\
  n_updated (value_of r) = (n_updated cnt + successes (refresh_results ids w))%nat.
Proof.
  cbn zeta. revert cnt w. induction chats as [|chat later IH]; intros cnt w.
  - cbn. unfold failures, successes. cbn. repeat split; lia.
  - rewrite refreshLoop_step. cbn [List.filter].
    destruct (is_dirty (chatIndex w) chat) eqn:D.
    + cbn zeta. cbn [map refresh_results].
      set (r := updateChatCache (chat_id chat) w).
      set (cnt' := if value_of r then _ else _).
      destruct (IH cnt' (world_of r)) as (Hc & Hl & Hk & He & Hu).
      assert (Hidx : chatIndex (world_of r) = chatIndex w)
        by apply (keeps_updateChatCache chatIndex _ beside_cache_chatIndex).
      rewrite Hidx in *.
      destruct (updateChatCache_calls (chat_id chat) w) as [Hc1 Hl1].
      fold r in Hc1, Hl1.
      project_run.
      rewrite refresh_calls_app, listing_calls_app, Hc1, Hl1, Hc, Hl, Hk, He, Hu.
      unfold failures, successes. cbn [List.filter].
      subst cnt'. destruct (value_of r); cbn; repeat split; lia.
    + destruct (IH {| checked := S (checked cnt); n_updated := n_updated cnt;
                      n_errors := n_errors cnt |} w) as (Hc & Hl & Hk & He & Hu).
      rewrite Hc, Hl, Hk, He, Hu. cbn. repeat split; lia.
Qed.

End LoopFacts.

(** ** The sync as a whole *)

Section SyncFacts.
Context `{Env}.

Lemma periodicSync_running (w : World) :
  isRunning (syncState w) = true -> periodicSync w = (tt, w, []).
Proof.
  intros Hrun. unfold periodicSync. rewrite bind_prepend.
  unfold gets at 1 2 3. project_run. now rewrite Hrun.
Qed.

(** A sync started while none is running, in terms of its two loops. *)
Lemma periodicSync_idle (w : World) :
  isRunning (syncState w) = false ->
  let r1 := fetchChats page_offsets [] w in
  let allChats := value_of r1 in
  let r2 := refreshLoop allChats {| checked := 0; n_updated := 0; n_errors := 0 |}
              (world_of r1) in
  let cnt := value_of r2 in
  let w2 := world_of r2 in
  let state :=
    {| lastSync := Some (date_now (ext w2));
       lastDuration := date_now (ext w2) - date_now (ext w);
       chatsChecked := checked cnt; chatsUpdated := n_updated cnt;
       chatsMissed := 0; isRunning := false; errors := n_errors cnt |} in
  periodicSync w =
  (tt,
   {| ext := ext w2; chatIndex := buildIndex allChats; webhookSeen := webhookSeen w;
      syncState := state; chatsDir := chatsDir w2;
      indexFile := Some (buildIndex allChats); syncStatusFile := Some state;
      webhookSeenFile := Some (webhookSeen w) |},
   EvLog LogSyncStart :: events_of r1 ++ EvLog (LogFetched (length allChats)) ::
     events_of r2 ++
     [EvLog (if (0 <? n_updated cnt)%nat
             then LogSyncDone (checked cnt) (n_updated cnt)
             else LogSyncUpToDate (checked cnt))]).
Proof.
  intros Hidle. cbn zeta.
  unfold periodicSync. generalize page_offsets. intros offs.
  rewrite bind_prepend. unfold gets at 1 2 3. project_run. rewrite Hidle.
  rewrite !bind_prepend.
  unfold saveIndex, saveWebhookSeen, log, now. unfold modify, gets, emit. project_run.
  match goal with |- context [set_syncState ?s0 w] => set (s := s0) end.
  pose proof (commutes_fetchChats (set_syncState s) offs []
                (bystander_set_syncState s)) as C1.
  rewrite !(commutes_value _ _ w C1), !(commutes_world _ _ w C1),
    !(commutes_events _ _ w C1).
  set (r1 := fetchChats offs [] w).
  pose proof (commutes_refreshLoop (set_syncState s) (value_of r1)
                {| checked := 0; n_updated := 0; n_errors := 0 |}
                (bystander_set_syncState s)) as C2.
  rewrite !(commutes_value _ _ (world_of r1) C2), !(commutes_world _ _ (world_of r1) C2),
    !(commutes_events _ _ (world_of r1) C2).
  set (r2 := refreshLoop (value_of r1) _ (world_of r1)).
  assert (Hseen : webhookSeen (world_of r2) = webhookSeen w).
  { unfold r2. rewrite (keeps_refreshLoop webhookSeen _ _ beside_cache_webhookSeen).
    apply keeps_fetchChats. reflexivity. }
  destruct (0 <? n_updated (value_of r2))%nat; rewrite !prepend_tuple; cbn [app];
    unfold set_webhookSeenFile, set_syncStatusFile, set_indexFile, set_chatIndex,
      set_syncState;
    cbn [ext chatIndex webhookSeen syncState chatsDir indexFile syncStatusFile
         webhookSeenFile];
    rewrite Hseen; reflexivity.
Qed.

End SyncFacts.

(** ** Single flight *)

Section SingleFlight.
Context `{Env}.

(** C4, as the code has it: while the running flag is set, [periodicSync]
    returns at once with the state untouched and without any event: no
    remote request, no log line.  Nothing is reported to the caller: the
    function's result is JavaScript's [undefined] on this path as on the
    other. *)
Theorem C4_running_sync_is_noop (w : World) :
  isRunning (syncState w) = true ->
  periodicSync w = (tt, w, []) /\
  world_of (periodicSync w) = w /\
  listing_calls (events_of (periodicSync w)) = [] /\
  refresh_calls (events_of (periodicSync w)) = [].
Proof.
  intros Hrun. rewrite (periodicSync_running w Hrun). repeat split.
Qed.

End SingleFlight.

Lemma C4_running_sync_is_noop_witness :
  isRunning (syncState running_world) = true /\
  @periodicSync quiet running_world = (tt, running_world, []).
Proof.
  split; [reflexivity|].
  apply (@C4_running_sync_is_noop quiet running_world). reflexivity.
Defined.

(** C4 as stated fails: the call made while a sync is in flight reports
    nothing.  Its result is the unit value and it emits no event, so there
    is no "already running" answer for the caller to see. *)
Lemma C4_no_already_running_report :
  isRunning (syncState running_world) = true /\
  value_of (@periodicSync quiet running_world) = tt /\
  ~ (exists e : Event, In e (events_of (@periodicSync quiet running_world))).
Proof.
  split; [reflexivity|]. split; [reflexivity|].
  intros [e He]. vm_compute in He. exact He.
Qed.

(** ** Encoded chat ids: what holds and what does not *)

(** C7, as the code has it: encoding twice is encoding once, and on ids
    that do not already contain [%2F] the encoding can be read back and
    keeps distinct ids apart. *)
Theorem C7_safeName_idempotent_and_reversible_off_escapes (x y : string) :
  safeName (safeName x) = safeName x /\
  (has_escape x = false -> decodeName (safeName x) = x) /\
  (has_escape x = false -> has_escape y = false -> x <> y ->
   safeName x <> safeName y).
Proof.
  split; [apply safeName_idempotent|]. split; [apply decodeName_safeName|].
  intros Hx Hy Hne Heq. apply Hne.
  rewrite <- (decodeName_safeName x Hx), <- (decodeName_safeName y Hy).
  now rewrite Heq.
Qed.

Lemma C7_round_trip_witness :
  has_escape "u2i/55-abc" = false /\
  safeName "u2i/55-abc" = "u2i%2F55-abc" /\
  decodeName (safeName "u2i/55-abc") = "u2i/55-abc" /\
  safeName "u2i/55-abc" <> safeName "u2i-55-abc".
Proof.
  split; [reflexivity|]. split; [reflexivity|].
  pose proof (C7_safeName_idempotent_and_reversible_off_escapes
                "u2i/55-abc" "u2i-55-abc") as (_ & Hback & Hinj).
  split.
  - apply Hback. reflexivity.
  - apply Hinj; [reflexivity | reflexivity | discriminate].
Defined.

(** C7 as stated fails: the encoding is not injective.  The id [a/b] and
    the id [a%2Fb] get the same file name, so no decoder can tell them
    apart. *)
Lemma C7_safeName_collision :
  ~ (forall a b : string, a <> b -> safeName a <> safeName b).
Proof.
  intros Hinj. apply (Hinj "a/b" "a%2Fb"); [discriminate | reflexivity].
Qed.

(** ** What a completed sync did *)

Section SweepFacts.
Context `{Env}.

Lemma fetchChats_ext_only offs acc (w1 w2 : World) :
  ext w1 = ext w2 ->
  value_of (fetchChats offs acc w1) = value_of (fetchChats offs acc w2) /\
  events_of (fetchChats offs acc w1) = events_of (fetchChats offs acc w2) /\
  ext (world_of (fetchChats offs acc w1)) = ext (world_of (fetchChats offs acc w2)).
Proof.
  revert acc w1 w2. induction offs as [|off later IH]; intros acc w1 w2 He.
  - repeat split. exact He.
  - rewrite !fetchChats_step. cbn zeta. rewrite <- He.
    destruct (fst (api_chats (ext w1) off)) as [|[[[|c page]|]]];
      try (repeat split; reflexivity).
    destruct (length (c :: page) <? 100)%nat; [repeat split; reflexivity|].
    project_run.
    destruct (IH (acc ++ c :: page)
                (set_ext (snd (api_chats (ext w1) off)) w1)
                (set_ext (snd (api_chats (ext w1) off)) w2) eq_refl)
      as (Hv & Hevs & Hx).
    now rewrite Hv, Hevs, Hx.
Qed.

Lemma is_dirty_false (index : gmap string Summary) (c : Chat) :
  is_dirty index c = false <->
  exists prev, index !! chat_id c = Some prev /\ lastMsgId prev = chat_lastMsgId c.
Proof.
  unfold is_dirty, needs_update. destruct (index !! chat_id c) as [prev|].
  - rewrite negb_false_iff, String.eqb_eq. split.
    + intros E. exists prev. now split.
    + intros (p & [= <-] & E). exact E.
  - split; [discriminate|]. intros (p & E & _). discriminate.
Qed.

Lemma is_dirty_true (index : gmap string Summary) (c : Chat) :
  is_dirty index c = true <->
  index !! chat_id c = None \/
  exists prev, index !! chat_id c = Some prev /\ lastMsgId prev <> chat_lastMsgId c.
Proof.
  unfold is_dirty, needs_update. destruct (index !! chat_id c) as [prev|].
  - rewrite negb_true_iff, String.eqb_neq. split.
    + intros E. right. exists prev. now split.
    + intros [E | (p & [= <-] & E)]; [discriminate | exact E].
  - split; [now left | reflexivity].
Qed.

Lemma calls_for_dirty (id : string) (d : Chat -> bool) (listed : list Chat) :
  length (List.filter (String.eqb id) (map chat_id (List.filter d listed))) =
  length (List.filter d (listed_entries id listed)).
Proof.
  unfold listed_entries. induction listed as [|c l IH]; [reflexivity|].
  cbn [List.filter]. destruct (d c) eqn:D; cbn [map List.filter].
  - destruct (String.eqb id (chat_id c)); cbn [List.filter length].
    + now rewrite D, IH.
    + exact IH.
  - destruct (String.eqb id (chat_id c)); cbn [List.filter]; [rewrite D|]; exact IH.
Qed.

(** The report, the index and the requests of a sync started while none
    is running. *)
Lemma sweep_summary (w : World) :
  isRunning (syncState w) = false ->
  let r := periodicSync w in
  let listed := sweep_listing w in
  let ids := map chat_id (List.filter (is_dirty (chatIndex w)) listed) in
  let w1 := world_of (fetchChats page_offsets [] w) in
  refresh_calls (events_of r) = ids /\
  listing_calls (events_of r) = listing_calls (events_of (fetchChats page_offsets [] w)) /\
  chatIndex (world_of r) = buildIndex listed /\
  indexFile (world_of r) = Some (buildIndex listed) /\
  chatsChecked (syncState (world_of r)) = length listed /\
  errors (syncState (world_of r)) = failures (refresh_results ids w1) /\
  chatsUpdated (syncState (world_of r)) = successes (refresh_results ids w1) /\
  isRunning (syncState (world_of r)) = false.
Proof.
  intros Hidle. cbn zeta. rewrite (periodicSync_idle w Hidle). project_run.
  unfold sweep_listing.
  set (r1 := fetchChats page_offsets [] w).
  assert (Hidx : chatIndex (world_of r1) = chatIndex w)
    by (apply keeps_fetchChats; reflexivity).
  destruct (refreshLoop_spec (value_of r1)
              {| checked := 0; n_updated := 0; n_errors := 0 |} (world_of r1))
    as (Hc & Hl & Hk & He & Hu).
  rewrite Hidx in Hc, He, Hu.
  cbn [chatIndex indexFile syncState chatsChecked errors chatsUpdated isRunning].
  change (EvLog LogSyncStart :: ?l) with ([EvLog LogSyncStart] ++ l).
  change (events_of r1 ++ ?e :: ?l) with (events_of r1 ++ [e] ++ l).
  pose proof (fetchChats_calls page_offsets [] w) as Hf. fold r1 in Hf.
  rewrite !refresh_calls_app, !listing_calls_app, Hc, Hl, Hk, He, Hu, Hf.
  cbn. rewrite !app_nil_r. repeat split.
Qed.

(** C1, as the code has it: the sync refreshes exactly the listed entries
    that are dirty, in listing order, one request per entry, and whether an
    entry is dirty depends on nothing but its last message id and the one
    in the previous index.  So a conversation whose listed entries all
    carry the indexed last message id gets no request, and a conversation
    listed once that is new or carries another id gets exactly one. *)
Theorem C1_one_refresh_per_dirty_listed_entry (w : World) :
  isRunning (syncState w) = false ->
  let evs := events_of (periodicSync w) in
  let listed := sweep_listing w in
  refresh_calls evs = map chat_id (List.filter (is_dirty (chatIndex w)) listed) /\
  (forall id,
     calls_for id evs =
     length (List.filter (is_dirty (chatIndex w)) (listed_entries id listed))) /\
  (forall id,
     (forall c, In c (listed_entries id listed) ->
        exists prev, chatIndex w !! id = Some prev /\ lastMsgId prev = chat_lastMsgId c) ->
     calls_for id evs = 0%nat) /\
  (forall id c,
     listed_entries id listed = [c] ->
     (chatIndex w !! id = None \/
      exists prev, chatIndex w !! id = Some prev /\ lastMsgId prev <> chat_lastMsgId c) ->
     calls_for id evs = 1%nat) /\
  (forall (index index' : gmap string Summary) (c c' : Chat),
     chat_id c = chat_id c' -> chat_lastMsgId c = chat_lastMsgId c' ->
     lastMsgId <$> (index !! chat_id c) = lastMsgId <$> (index' !! chat_id c) ->
     is_dirty index c = is_dirty index' c').
Proof.
  intros Hidle. cbn zeta.
  destruct (sweep_summary w Hidle) as (Hcalls & _).
  assert (Hcount : forall id,
    calls_for id (events_of (periodicSync w)) =
    length (List.filter (is_dirty (chatIndex w)) (listed_entries id (sweep_listing w)))).
  { intros id. unfold calls_for. rewrite Hcalls. apply calls_for_dirty. }
  split; [exact Hcalls|]. split; [exact Hcount|]. split; [|split].
  - intros id Hclean. rewrite Hcount.
    assert (Hnone : forall l, (forall c, In c l -> is_dirty (chatIndex w) c = false) ->
                      List.filter (is_dirty (chatIndex w)) l = []).
    { induction l as [|c l IH]; [reflexivity|]. intros Hl. cbn [List.filter].
      rewrite (Hl c (or_introl eq_refl)). apply IH. intros c' Hc'. apply Hl. now right. }
    rewrite Hnone; [reflexivity|].
    intros c Hc. apply is_dirty_false.
    assert (Hid : chat_id c = id).
    { apply filter_In in Hc as [_ E]. apply String.eqb_eq in E. now symmetry. }
    rewrite Hid. now apply Hclean.
  - intros id c Hone Hdirty. rewrite Hcount, Hone.
    assert (Hid : chat_id c = id).
    { assert (Hin : In c (listed_entries id (sweep_listing w)))
        by (rewrite Hone; now left).
      apply filter_In in Hin as [_ E]. apply String.eqb_eq in E. now symmetry. }
    cbn [List.filter].
    replace (is_dirty (chatIndex w) c) with true; [reflexivity|].
    symmetry. apply is_dirty_true. now rewrite Hid.
  - intros index index' c c' Hid Hlast Hprev. unfold is_dirty.
    rewrite <- Hid, <- Hlast.
    destruct (index !! chat_id c) as [p|], (index' !! chat_id c) as [p'|];
      cbn in Hprev; try discriminate; [|reflexivity].
    injection Hprev as Hp. unfold needs_update. now rewrite Hp.
Qed.

End SweepFacts.

Lemma C1_one_refresh_per_dirty_listed_entry_witness :
  isRunning (syncState (@initial_world twice_listed 0%nat)) = false /\
  refresh_calls (events_of (@periodicSync twice_listed (@initial_world twice_listed 0%nat))) =
  map chat_id
    (List.filter (is_dirty (chatIndex (@initial_world twice_listed 0%nat)))
       (@sweep_listing twice_listed (@initial_world twice_listed 0%nat))).
Proof.
  split; [reflexivity|].
  apply (@C1_one_refresh_per_dirty_listed_entry twice_listed
           (@initial_world twice_listed 0%nat)).
  reflexivity.
Defined.

(** C1 as stated fails: the conversation [a] has no entry in the previous
    index, and the sync issues two refresh requests for it, one for each
    time the listing names it. *)
Lemma C1_listed_twice_refreshed_twice :
  chatIndex (@initial_world twice_listed 0%nat) !! "a" = None /\
  @sweep_listing twice_listed (@initial_world twice_listed 0%nat) =
    [listed_chat "a" "m1"; listed_chat "a" "m1"] /\
  calls_for "a"
    (events_of (@periodicSync twice_listed (@initial_world twice_listed 0%nat))) = 2%nat /\
  calls_for "a"
    (events_of (@periodicSync twice_listed (@initial_world twice_listed 0%nat))) <> 1%nat.
Proof.
  split; [reflexivity|]. split; [vm_compute; reflexivity|].
  split; [vm_compute; reflexivity|]. vm_compute. discriminate.
Qed.

(** ** The index after a sync *)

Section IndexFacts.
Context `{Env}.

Lemma foldl_insert_lookup (l : list Chat) (acc : gmap string Summary) (id : string) :
  foldl (fun newIndex chat => <[chat_id chat := summary_of chat]> newIndex) acc l !! id =
  match last (listed_entries id l) with
  | Some c => Some (summary_of c)
  | None => acc !! id
  end.
Proof.
  revert acc. induction l as [|c l IH]; intros acc; [reflexivity|].
  cbn [foldl]. rewrite IH. unfold listed_entries. cbn [List.filter].
  destruct (String.eqb id (chat_id c)) eqn:E.
  - apply String.eqb_eq in E. subst id. rewrite last_cons.
    destruct (last _); [reflexivity|]. apply lookup_insert_eq.
  - apply String.eqb_neq in E.
    destruct (last _); [reflexivity|]. apply lookup_insert_ne. congruence.
Qed.

Lemma buildIndex_lookup (l : list Chat) (id : string) :
  buildIndex l !! id = summary_of <$> last (listed_entries id l).
Proof.
  unfold buildIndex. rewrite foldl_insert_lookup, lookup_empty.
  now destruct (last _).
Qed.

Lemma listed_entries_nil (l : list Chat) (id : string) :
  (forall c, In c l -> chat_id c <> id) -> listed_entries id l = [].
Proof.
  intros Hl. unfold listed_entries. induction l as [|c l IH]; [reflexivity|].
  cbn [List.filter]. destruct (String.eqb id (chat_id c)) eqn:E.
  - apply String.eqb_eq in E. exfalso. apply (Hl c); [now left | now symmetry].
  - apply IH. intros c' Hc'. apply Hl. now right.
Qed.

Lemma sweep_listing_ext_only (w1 w2 : World) :
  ext w1 = ext w2 -> sweep_listing w1 = sweep_listing w2.
Proof. intros He. unfold sweep_listing. now apply fetchChats_ext_only. Qed.

(** C2: when a sync has run, [chatIndex] (and its file) is the index built
    from the listing of that sync and nothing else.  Every listed
    conversation has the entry built from its (last) listed element, a
    conversation that is not listed has none, and the result is the same
    whatever the index was before. *)
Theorem C2_index_is_rebuilt_from_the_listing (w : World) :
  isRunning (syncState w) = false ->
  let w' := world_of (periodicSync w) in
  let listed := sweep_listing w in
  chatIndex w' = buildIndex listed /\
  indexFile w' = Some (buildIndex listed) /\
  (forall id, chatIndex w' !! id = summary_of <$> last (listed_entries id listed)) /\
  (forall c, In c listed -> is_Some (chatIndex w' !! chat_id c)) /\
  (forall id, (forall c, In c listed -> chat_id c <> id) -> chatIndex w' !! id = None) /\
  (forall index0 : gmap string Summary,
     chatIndex (world_of (periodicSync (set_chatIndex index0 w))) = chatIndex w').
Proof.
  intros Hidle. cbn zeta.
  destruct (sweep_summary w Hidle) as (_ & _ & Hidx & Hfile & _).
  split; [exact Hidx|]. split; [exact Hfile|]. rewrite Hidx.
  split; [intros id; apply buildIndex_lookup|]. split; [|split].
  - intros c Hc. rewrite buildIndex_lookup.
    assert (Hin : In c (listed_entries (chat_id c) (sweep_listing w))).
    { apply filter_In. split; [exact Hc | apply String.eqb_refl]. }
    destruct (listed_entries (chat_id c) (sweep_listing w)) as [|x l] eqn:E;
      [destruct Hin|].
    rewrite last_cons. destruct (last l); cbn; eauto.
  - intros id Hid. rewrite buildIndex_lookup, (listed_entries_nil _ _ Hid).
    reflexivity.
  - intros index0.
    destruct (sweep_summary (set_chatIndex index0 w) Hidle) as (_ & _ & Hidx0 & _).
    rewrite Hidx0. f_equal. now apply sweep_listing_ext_only.
Qed.

End IndexFacts.

Lemma C2_index_is_rebuilt_from_the_listing_witness :
  isRunning (syncState (@initial_world flaky 0%nat)) = false /\
  chatIndex (world_of (@periodicSync flaky (@initial_world flaky 0%nat))) =
  @buildIndex flaky (@sweep_listing flaky (@initial_world flaky 0%nat)).
Proof.
  split; [reflexivity|].
  apply (@C2_index_is_rebuilt_from_the_listing flaky (@initial_world flaky 0%nat)).
  reflexivity.
Defined.

(** ** Failures during a sync *)

Section FailureFacts.
Context `{Env}.

Lemma length_refresh_results (ids : list string) (w : World) :
  length (refresh_results ids w) = length ids.
Proof.
  revert w. induction ids as [|id ids IH]; intros w; [reflexivity|].
  cbn [refresh_results length]. now rewrite IH.
Qed.

(** C5: every dirty conversation of the listing is requested, in order,
    whatever the earlier requests returned, and the error count of the
    report is the number of refreshes that returned [false] (as the update
    count is the number that returned [true]). *)
Theorem C5_refresh_failures_are_isolated_and_counted (w : World) :
  isRunning (syncState w) = false ->
  let r := periodicSync w in
  let ids := map chat_id (List.filter (is_dirty (chatIndex w)) (sweep_listing w)) in
  let results := refresh_results ids (world_of (fetchChats page_offsets [] w)) in
  refresh_calls (events_of r) = ids /\
  length results = length ids /\
  (forall (i j : nat) (a b : string),
     (i < j)%nat -> ids !! i = Some a -> results !! i = Some false ->
     ids !! j = Some b -> refresh_calls (events_of r) !! j = Some b) /\
  errors (syncState (world_of r)) = failures results /\
  chatsUpdated (syncState (world_of r)) = successes results.
Proof.
  intros Hidle. cbn zeta.
  destruct (sweep_summary w Hidle) as (Hcalls & _ & _ & _ & _ & Herr & Hupd & _).
  split; [exact Hcalls|]. split; [apply length_refresh_results|].
  split; [|split; assumption].
  intros i j a b _ _ _ Hb. now rewrite Hcalls.
Qed.

Lemma fetchChats_pages (offs : list nat) (pages : list (list Chat))
    (acc : list Chat) (w : World) :
  pages_then_failure (ext w) offs pages ->
  value_of (fetchChats offs acc w) = acc ++ concat pages /\
  listing_calls (events_of (fetchChats offs acc w)) = take (S (length pages)) offs.
Proof.
  revert pages acc w. induction offs as [|off offs IH]; intros pages acc w Hp.
  - destruct Hp.
  - rewrite fetchChats_step. cbn zeta. cbn [pages_then_failure] in Hp.
    destruct pages as [|page later].
    + cbn [concat length take]. rewrite app_nil_r, take_0.
      destruct Hp as [-> | (d & -> & Hd)]; [split; reflexivity|].
      destruct d as [c]. cbn in Hd. subst c. split; reflexivity.
    + destruct Hp as (-> & Hfull & Hlater).
      destruct page as [|c page]; [cbn in Hfull; lia|].
      replace (length (c :: page) <? 100)%nat with false
        by (symmetry; apply Nat.ltb_ge; exact Hfull).
      project_run.
      destruct (IH later (acc ++ c :: page)
                  (set_ext (snd (api_chats (ext w) off)) w) Hlater) as [Hv Hl].
      split.
      * rewrite Hv. cbn [concat]. now rewrite <- app_assoc.
      * cbn [listing_calls omap list_omap]. fold (listing_calls
          (events_of (fetchChats offs (acc ++ c :: page)
             (set_ext (snd (api_chats (ext w) off)) w)))).
        rewrite Hl. reflexivity.
Qed.

(** C6, as the code has it: when the request for a listing page fails
    after some full pages, no later page is requested, the sync goes on
    with the conversations of the pages it has (index, count of checked
    conversations, dirty detection), and the failure does not enter the
    error count of the report, which counts the refreshes that failed. *)
Theorem C6_listing_failure_ends_pagination_uncounted (w : World)
    (pages : list (list Chat)) :
  isRunning (syncState w) = false ->
  pages_then_failure (ext w) page_offsets pages ->
  let r := periodicSync w in
  let listed := concat pages in
  let ids := map chat_id (List.filter (is_dirty (chatIndex w)) listed) in
  sweep_listing w = listed /\
  listing_calls (events_of r) = take (S (length pages)) page_offsets /\
  chatIndex (world_of r) = buildIndex listed /\
  chatsChecked (syncState (world_of r)) = length listed /\
  refresh_calls (events_of r) = ids /\
  errors (syncState (world_of r)) =
    failures (refresh_results ids (world_of (fetchChats page_offsets [] w))).
Proof.
  intros Hidle Hpages. cbn zeta.
  destruct (fetchChats_pages page_offsets pages [] w Hpages) as [Hv Hl].
  assert (Hlisted : sweep_listing w = concat pages) by exact Hv.
  destruct (sweep_summary w Hidle) as (Hcalls & Hlist & Hidx & _ & Hchk & Herr & _).
  rewrite Hlisted in *.
  repeat split; try assumption. now rewrite Hlist.
Qed.

End FailureFacts.

Lemma C5_refresh_failures_are_isolated_and_counted_witness :
  isRunning (syncState (@initial_world flaky 0%nat)) = false /\
  refresh_calls (events_of (@periodicSync flaky (@initial_world flaky 0%nat))) = ["a"; "b"] /\
  errors (syncState (world_of (@periodicSync flaky (@initial_world flaky 0%nat)))) = 1%nat.
Proof.
  pose proof (@C5_refresh_failures_are_isolated_and_counted flaky
                (@initial_world flaky 0%nat) eq_refl) as (Hcalls & _ & _ & Herr & _).
  split; [reflexivity|]. split.
  - rewrite Hcalls. vm_compute. reflexivity.
  - rewrite Herr. vm_compute. reflexivity.
Defined.

Lemma C6_listing_failure_ends_pagination_uncounted_witness :
  isRunning (syncState (@initial_world one_page_then_down 0%nat)) = false /\
  @pages_then_failure one_page_then_down 0%nat page_offsets [hundred_chats] /\
  @sweep_listing one_page_then_down (@initial_world one_page_then_down 0%nat) =
    hundred_chats ++ [].
Proof.
  assert (Hp : @pages_then_failure one_page_then_down 0%nat page_offsets [hundred_chats]).
  { cbn. split; [reflexivity|]. split; [lia|]. left. reflexivity. }
  split; [reflexivity|]. split; [exact Hp|].
  apply (@C6_listing_failure_ends_pagination_uncounted one_page_then_down
           (@initial_world one_page_then_down 0%nat) [hundred_chats] eq_refl Hp).
Defined.

(** C6 as stated fails: the first listing request fails, and the report
    of the sync counts no error. *)
Lemma C6_listing_failure_is_not_counted :
  fst (@api_chats quiet (ext (@initial_world quiet 0%nat)) 0%nat) = ApiNull /\
  listing_calls (events_of (@periodicSync quiet (@initial_world quiet 0%nat))) = [0%nat] /\
  errors (syncState (world_of (@periodicSync quiet (@initial_world quiet 0%nat)))) = 0%nat.
Proof. repeat split. Qed.

(** ** Refreshing one conversation *)

Section RefreshFacts.
Context `{Env}.

(** What [updateChatCache] returns and writes, by the answer of the
    remote. *)
Lemma updateChatCache_cases (chatId : string) (w : World) :
  let r := updateChatCache chatId w in
  match fst (api_messages (ext w) chatId) with
  | ApiNull | ApiData {| messages := None |} =>
      value_of r = false /\ chatsDir (world_of r) = chatsDir w
  | ApiData {| messages := Some [] |} =>
      value_of r = true /\ chatsDir (world_of r) = chatsDir w
  | ApiData {| messages := Some (m :: l) |} =>
      value_of r = true /\
      chatsDir (world_of r) =
        cache_files chatId (m :: l)
          (date_now (snd (api_messages (ext w) chatId))) (chatsDir w)
  end.
Proof.
  cbn zeta. rewrite updateChatCache_run.
  destruct (fst (api_messages (ext w) chatId)) as [|[[[|m l]|]]]; split; reflexivity.
Qed.

End RefreshFacts.

(** C3 at the failing input: the remote answers with an empty message
    list; [updateChatCache] writes nothing, logs that the cache was updated
    with 0 messages, and returns [true]. *)
Theorem C3_empty_batch_returns_true :
  fst (@api_messages empty_thread (ext (@initial_world empty_thread 0%nat)) "u2i-1") =
    ApiData {| messages := Some [] |} /\
  value_of (@updateChatCache empty_thread "u2i-1" (@initial_world empty_thread 0%nat)) = true /\
  chatsDir (world_of (@updateChatCache empty_thread "u2i-1" (@initial_world empty_thread 0%nat))) =
    chatsDir (@initial_world empty_thread 0%nat) /\
  events_of (@updateChatCache empty_thread "u2i-1" (@initial_world empty_thread 0%nat)) =
    [EvRequest (GetMessages "u2i-1"); EvLog (LogCacheUpdated "u2i-1" 0)].
Proof. repeat split. Qed.

(** ** Reading the cache back *)

Section ReadBackFacts.
Context `{Env}.

Lemma length_append (s t : string) :
  String.length (s +:+ t) = (String.length s + String.length t)%nat.
Proof.
  induction s as [|c s IH]; [reflexivity|].
  change (S (String.length (s +:+ t)) = S (String.length s + String.length t)).
  now rewrite IH.
Qed.

Lemma txt_name_is_not_json_name (safe : string) :
  "chat_" +:+ safe +:+ ".txt" <> safe +:+ ".json".
Proof.
  intros E. apply (f_equal String.length) in E.
  rewrite !length_append in E. cbn in E. lia.
Qed.

Lemma ascending_created_cons (x : Message) (l : list Message) :
  ascending_created (x :: l) =
  match l with
  | [] => true
  | y :: _ => (created_or_0 x <=? created_or_0 y) && ascending_created l
  end.
Proof. now destruct l. Qed.

Lemma ascending_insert (m : Message) (l : list Message) :
  ascending_created l = true -> ascending_created (insert_by_created m l) = true.
Proof.
  induction l as [|x t IH]; intros Hs; [reflexivity|].
  cbn [insert_by_created].
  destruct (created_or_0 m <=? created_or_0 x) eqn:E.
  - rewrite ascending_created_cons, E. exact Hs.
  - assert (Hxm : (created_or_0 x <=? created_or_0 m) = true)
      by (apply Z.leb_le; apply Z.leb_gt in E; lia).
    rewrite ascending_created_cons in Hs.
    destruct t as [|y t'].
    + cbn [insert_by_created]. rewrite ascending_created_cons, Hxm. reflexivity.
    + apply andb_true_iff in Hs as [Hxy Ht]. specialize (IH Ht).
      rewrite ascending_created_cons. cbn [insert_by_created] in *.
      destruct (created_or_0 m <=? created_or_0 y).
      * now rewrite Hxm, IH.
      * now rewrite Hxy, IH.
Qed.

Lemma sort_by_created_ascending (l : list Message) :
  ascending_created (sort_by_created l) = true.
Proof.
  induction l as [|m l IH]; [reflexivity|].
  cbn [sort_by_created foldr]. now apply ascending_insert.
Qed.

Lemma insert_by_created_perm (m : Message) (l : list Message) :
  Permutation (m :: l) (insert_by_created m l).
Proof.
  induction l as [|x t IH]; [reflexivity|]. cbn [insert_by_created].
  destruct (created_or_0 m <=? created_or_0 x); [reflexivity|].
  rewrite perm_swap. now apply perm_skip.
Qed.

Lemma sort_by_created_perm (l : list Message) : Permutation l (sort_by_created l).
Proof.
  induction l as [|m l IH]; [reflexivity|]. cbn [sort_by_created foldr].
  rewrite <- insert_by_created_perm. now apply perm_skip.
Qed.

(** C8, as the code has it: after a chat's messages are saved, the
    cached-messages endpoint answers with exactly the saved sequence, in
    the order in which it was saved.  It is the transcript next to it whose
    lines follow the messages in ascending [created] order. *)
Theorem C8_read_back_returns_the_saved_sequence (chatId : string)
    (msgs : list Message) (authorization : option string) (w : World) :
  msgs <> [] ->
  checkAuth authorization = true ->
  let w' := world_of (saveChatMessages chatId msgs w) in
  events_of (handle_chat_messages authorization chatId w') =
    [EvResponse 200
       (BodyCached {| cc_chat_id := chatId; cc_messages := msgs;
                      cached_at := date_now (ext w) |})] /\
  (exists header,
     length header = 4%nat /\
     chatsDir w' !! ("chat_" +:+ safeName chatId +:+ ".txt") =
       Some (TxtFile (header ++ map transcript_line (sort_by_created msgs)))) /\
  ascending_created (sort_by_created msgs) = true /\
  Permutation msgs (sort_by_created msgs).
Proof.
  intros Hne Hauth. cbn zeta. rewrite saveChatMessages_run. project_run.
  destruct msgs as [|m l]; [contradiction|].
  split; [|split; [|split]].
  - unfold handle_chat_messages. rewrite Hauth. cbn [negb].
    rewrite bind_prepend. unfold gets. project_run.
    cbn [set_chatsDir chatsDir]. unfold cache_files.
    rewrite lookup_insert_ne by apply txt_name_is_not_json_name.
    rewrite lookup_insert_eq. reflexivity.
  - eexists [_; _; _; _]. split; [reflexivity|].
    cbn [set_chatsDir chatsDir]. unfold cache_files. now rewrite lookup_insert_eq.
  - apply sort_by_created_ascending.
  - apply sort_by_created_perm.
Qed.

End ReadBackFacts.

Lemma C8_read_back_returns_the_saved_sequence_witness :
  newest_first <> [] /\
  @checkAuth quiet None = true /\
  events_of (@handle_chat_messages quiet None "u2i/55-abc"
               (world_of (@saveChatMessages quiet "u2i/55-abc" newest_first
                            (@initial_world quiet 0%nat)))) =
    [EvResponse 200
       (BodyCached {| cc_chat_id := "u2i/55-abc"; cc_messages := newest_first;
                      cached_at := 1700000000000 |})].
Proof.
  split; [discriminate|]. split; [reflexivity|].
  apply (@C8_read_back_returns_the_saved_sequence quiet "u2i/55-abc" newest_first
           None (@initial_world quiet 0%nat)); [discriminate | reflexivity].
Defined.

(** C8 as stated fails: the remote sent the newer message first; the
    sequence read back from the cache is the one saved, and it is not in
    ascending [created] order. *)
Lemma C8_read_back_is_not_sorted :
  exists c : CachedConversation,
    events_of (@handle_chat_messages quiet None "u2i-1"
                 (world_of (@saveChatMessages quiet "u2i-1" newest_first
                              (@initial_world quiet 0%nat)))) =
      [EvResponse 200 (BodyCached c)] /\
    cc_messages c = newest_first /\
    m_created <$> cc_messages c = [Some 20; Some 10] /\
    @ascending_created (cc_messages c) = false.
Proof.
  eexists. split; [vm_compute; reflexivity|]. repeat split.
Qed.

(** ** The webhook *)

Section WebhookFacts.
Context `{Env}.

Lemma handle_webhook_run (body : string) (w : World) :
  handle_webhook body w =
  match JSON_parse body with
  | None => (tt, w, [EvResponse 200 BodyOk; EvLog LogWebhookParseError])
  | Some WJNull =>
      (tt, w,
       [EvResponse 200 BodyOk; EvLog (LogWebhook (String.substring 0 300 body));
        EvLog LogWebhookParseError])
  | Some (WJValue v) =>
      match webhook_chat_id body with
      | Some chatId =>
          let w1 :=
            set_webhookSeen
              (<[chatId := {| seen_lastMsgId := default "" (v ≫= wv_id);
                              seen_at := date_now (ext w) |}]> (webhookSeen w)) w in
          (tt, world_of (updateChatCache chatId w1),
           [EvResponse 200 BodyOk; EvLog (LogWebhook (String.substring 0 300 body));
            EvLog (LogNewMessage chatId)] ++ events_of (updateChatCache chatId w1))
      | None =>
          (tt, w, [EvResponse 200 BodyOk; EvLog (LogWebhook (String.substring 0 300 body))])
      end
  end.
Proof.
  unfold handle_webhook, webhook_chat_id.
  rewrite bind_prepend. unfold sendJson, log. unfold emit. project_run.
  destruct (JSON_parse body) as [[|v]|]; try reflexivity.
  rewrite bind_prepend. project_run.
  destruct (v ≫= wv_chat_id) as [chatId|]; [|reflexivity].
  destruct (String.eqb chatId ""); [reflexivity|].
  rewrite !bind_prepend. unfold now, gets, modify, ret. project_run.
  rewrite !prepend_tuple. cbn [app]. now rewrite app_nil_r.
Qed.

Lemma keeps_handle_webhook {X : Type} (f : World -> X) (body : string) :
  beside_cache f -> (forall s w, f (set_webhookSeen s w) = f w) ->
  keeps f (handle_webhook body).
Proof.
  intros Hf Hs w. rewrite handle_webhook_run.
  destruct (JSON_parse body) as [[|v]|]; try reflexivity.
  destruct (webhook_chat_id body) as [chatId|]; [|reflexivity].
  cbn zeta. project_run. rewrite (keeps_updateChatCache f chatId Hf). apply Hs.
Qed.

(** C9: the first event of the handler, for every body, is the response
    [200 {ok: true}], before the body is parsed, and it is the only
    response.  A body that is not JSON, or that carries no conversation id,
    gets that same response and leaves the whole state as it was: the
    index, the webhook-seen map and the cache in particular; no remote
    request is made. *)
Theorem C9_webhook_is_acknowledged_first (body : string) (w : World) :
  (exists rest,
     events_of (handle_webhook body w) = EvResponse 200 BodyOk :: rest /\
     no_response rest) /\
  (webhook_chat_id body = None ->
   world_of (handle_webhook body w) = w /\
   chatIndex (world_of (handle_webhook body w)) = chatIndex w /\
   webhookSeen (world_of (handle_webhook body w)) = webhookSeen w /\
   chatsDir (world_of (handle_webhook body w)) = chatsDir w /\
   refresh_calls (events_of (handle_webhook body w)) = []).
Proof.
  rewrite handle_webhook_run. split.
  - destruct (JSON_parse body) as [[|v]|].
    + eexists. split; [reflexivity|]. intros s b [E|[E|[]]]; discriminate.
    + destruct (webhook_chat_id body) as [chatId|].
      * cbn zeta. project_run. eexists. split; [reflexivity|].
        rewrite updateChatCache_run.
        destruct (fst (api_messages _ chatId)) as [|[[msgs|]]]; project_run;
          intros s b [E|[E|[E|[E|[]]]]]; discriminate.
      * eexists. split; [reflexivity|]. intros s b [E|[]]; discriminate.
    + eexists. split; [reflexivity|]. intros s b [E|[]]; discriminate.
  - intros Hnone. rewrite Hnone.
    destruct (JSON_parse body) as [[|v]|]; repeat split.
Qed.

End WebhookFacts.

Lemma C9_webhook_is_acknowledged_first_witness :
  @webhook_chat_id quiet "not json" = None /\
  world_of (@handle_webhook quiet "not json" (@initial_world quiet 0%nat)) =
    @initial_world quiet 0%nat.
Proof.
  split; [reflexivity|].
  apply (@C9_webhook_is_acknowledged_first quiet "not json" (@initial_world quiet 0%nat)).
  reflexivity.
Defined.

(** ** The webhook-seen map and the sync *)

Section SeenFacts.
Context `{Env}.

Lemma periodicSync_ignores_seen (seen : gmap string Seen) (w : World) :
  sweep_listing (set_webhookSeen seen w) = sweep_listing w /\
  events_of (periodicSync (set_webhookSeen seen w)) = events_of (periodicSync w) /\
  chatIndex (world_of (periodicSync (set_webhookSeen seen w))) =
    chatIndex (world_of (periodicSync w)) /\
  chatsDir (world_of (periodicSync (set_webhookSeen seen w))) =
    chatsDir (world_of (periodicSync w)).
Proof.
  split; [now apply sweep_listing_ext_only|].
  destruct (isRunning (syncState w)) eqn:Hrun.
  - rewrite (periodicSync_running w Hrun),
      (periodicSync_running (set_webhookSeen seen w) Hrun). repeat split.
  - rewrite (periodicSync_idle w Hrun), (periodicSync_idle (set_webhookSeen seen w) Hrun).
    generalize page_offsets. intros offs. project_run.
    pose proof (commutes_fetchChats (set_webhookSeen seen) offs []
                  (bystander_set_webhookSeen seen)) as C1.
    rewrite !(commutes_value _ _ w C1), !(commutes_world _ _ w C1),
      !(commutes_events _ _ w C1).
    set (r1 := fetchChats offs [] w).
    pose proof (commutes_refreshLoop (set_webhookSeen seen) (value_of r1)
                  {| checked := 0; n_updated := 0; n_errors := 0 |}
                  (bystander_set_webhookSeen seen)) as C2.
    rewrite !(commutes_value _ _ (world_of r1) C2), !(commutes_world _ _ (world_of r1) C2),
      !(commutes_events _ _ (world_of r1) C2).
    repeat split.
Qed.

(** C10: the sync run from two states that differ only in the
    webhook-seen map lists the same conversations, finds the same ones
    dirty, and emits the same events, so it issues the same listing and
    refresh requests; it ends with the same index and the same cache.  And
    the webhook handler leaves the index as it was, for every body. *)
Theorem C10_webhook_seen_map_does_not_steer_the_sync (w : World)
    (seen1 seen2 : gmap string Seen) (body : string) :
  let w1 := set_webhookSeen seen1 w in
  let w2 := set_webhookSeen seen2 w in
  sweep_listing w1 = sweep_listing w2 /\
  List.filter (is_dirty (chatIndex w1)) (sweep_listing w1) =
    List.filter (is_dirty (chatIndex w2)) (sweep_listing w2) /\
  events_of (periodicSync w1) = events_of (periodicSync w2) /\
  refresh_calls (events_of (periodicSync w1)) =
    refresh_calls (events_of (periodicSync w2)) /\
  chatIndex (world_of (periodicSync w1)) = chatIndex (world_of (periodicSync w2)) /\
  chatsDir (world_of (periodicSync w1)) = chatsDir (world_of (periodicSync w2)) /\
  chatIndex (world_of (handle_webhook body w)) = chatIndex w.
Proof.
  cbn zeta.
  destruct (periodicSync_ignores_seen seen1 w) as (Hl1 & He1 & Hi1 & Hc1).
  destruct (periodicSync_ignores_seen seen2 w) as (Hl2 & He2 & Hi2 & Hc2).
  rewrite Hl1, Hl2, He1, He2, Hi1, Hi2, Hc1, Hc2.
  repeat split.
  apply (keeps_handle_webhook chatIndex body beside_cache_chatIndex). reflexivity.
Qed.

End SeenFacts.

(** * Further properties of the sync *)

Section PaginationFacts.
Context `{Env}.




Lemma fetchChats_pages_end (pages : list (list Chat)) (tail : list Chat)
    (offs : list nat) (acc : list Chat) (w : World) :
  pages_then_end (ext w) offs pages tail ->
  value_of (fetchChats offs acc w) = acc ++ concat pages ++ tail /\
  listing_calls (events_of (fetchChats offs acc w)) = take (S (length pages)) offs.
Proof.
  revert offs acc w. induction pages as [|page later IH]; intros offs acc w Hp.
  - cbn [pages_then_end] in Hp. cbn [concat length app].
    destruct offs as [|off offs].
    + cbn in Hp. subst tail. cbn. now rewrite app_nil_r.
    + cbn [pages_then_end] in Hp. destruct Hp as [Hr Hshort]. rewrite fetchChats_step, Hr. cbn zeta.
      destruct tail as [|c t].
      * rewrite app_nil_r. split; reflexivity.
      * replace (length (c :: t) <? 100)%nat with true
          by (symmetry; now apply Nat.ltb_lt).
        split; reflexivity.
  - cbn [pages_then_end] in Hp. destruct offs as [|off offs]; [destruct Hp|].
    destruct Hp as (Hr & Hfull & Hlater).
    rewrite fetchChats_step, Hr. cbn zeta.
    destruct page as [|c page]; [cbn in Hfull; lia|].
    replace (length (c :: page) <? 100)%nat with false
      by (symmetry; apply Nat.ltb_ge; exact Hfull).
    project_run.
    destruct (IH offs (acc ++ c :: page)
                (set_ext (snd (api_chats (ext w) off)) w) Hlater) as [Hv Hl].
    split.
    + rewrite Hv. cbn [concat]. now rewrite <- !app_assoc.
    + change (listing_calls (EvRequest (GetChats off) :: ?l)) with (off :: listing_calls l).
      now rewrite Hl.
Qed.

(** X2: the pagination ends with the first page that has fewer than 100
    chats (an empty one included) and, at the latest, with the page at
    offset 1000.  The sync then works on the chats of all the pages it got,
    the short one included, and requests no further page. *)
Theorem X2_pagination_ends_at_short_page_or_cap (w : World)
    (pages : list (list Chat)) (tail : list Chat) :
  isRunning (syncState w) = false ->
  pages_then_end (ext w) page_offsets pages tail ->
  sweep_listing w = concat pages ++ tail /\
  listing_calls (events_of (periodicSync w)) = take (S (length pages)) page_offsets /\
  chatsChecked (syncState (world_of (periodicSync w))) = length (concat pages ++ tail) /\
  chatIndex (world_of (periodicSync w)) = buildIndex (concat pages ++ tail).
Proof.
  intros Hidle Hp.
  destruct (fetchChats_pages_end pages tail page_offsets [] w Hp) as [Hv Hl].
  assert (Hlisted : sweep_listing w = concat pages ++ tail) by exact Hv.
  destruct (sweep_summary w Hidle) as (_ & Hlist & Hidx & _ & Hchk & _).
  rewrite Hlisted in *. rewrite Hlist. repeat split; assumption.
Qed.

End PaginationFacts.

Lemma X2_pagination_ends_at_short_page_or_cap_witness :
  isRunning (syncState (@initial_world twice_listed 0%nat)) = false /\
  @pages_then_end twice_listed 0%nat page_offsets []
    [listed_chat "a" "m1"; listed_chat "a" "m1"] /\
  listing_calls (events_of (@periodicSync twice_listed (@initial_world twice_listed 0%nat))) =
    take 1 page_offsets.
Proof.
  assert (Hp : @pages_then_end twice_listed 0%nat page_offsets []
                 [listed_chat "a" "m1"; listed_chat "a" "m1"]).
  { cbn. split; [reflexivity | lia]. }
  split; [reflexivity|]. split; [exact Hp|].
  apply (@X2_pagination_ends_at_short_page_or_cap twice_listed
           (@initial_world twice_listed 0%nat) [] _ eq_refl Hp).
Defined.

Section ReportFacts.
Context `{Env}.

Lemma successes_failures (l : list bool) :
  (successes l + failures l)%nat = length l.
Proof.
  unfold successes, failures. induction l as [|[] l IH]; cbn; lia.
Qed.

Lemma length_filter_le {A : Type} (f : A -> bool) (l : list A) :
  (length (List.filter f l) <= length l)%nat.
Proof. induction l as [|a l IH]; cbn; [lia|]. destruct (f a); cbn; lia. Qed.

Lemma periodicSync_status (w : World) :
  isRunning (syncState w) = false ->
  syncStatusFile (world_of (periodicSync w)) = Some (syncState (world_of (periodicSync w))) /\
  chatsMissed (syncState (world_of (periodicSync w))) = 0%nat /\
  webhookSeenFile (world_of (periodicSync w)) = Some (webhookSeen (world_of (periodicSync w))) /\
  webhookSeen (world_of (periodicSync w)) = webhookSeen w.
Proof. intros Hidle. rewrite (periodicSync_idle w Hidle). repeat split. Qed.

(** X3: in the report of a completed sync, the checked count is the number
    of listed entries, and updated plus errors is the number of dirty
    entries among them: every dirty entry is counted once, as one or the
    other.  The report is also what the status file holds, and the running
    flag is down again. *)
Theorem X3_sync_report_accounts_for_every_dirty_entry (w : World) :
  isRunning (syncState w) = false ->
  let w' := world_of (periodicSync w) in
  let listed := sweep_listing w in
  chatsChecked (syncState w') = length listed /\
  (chatsUpdated (syncState w') + errors (syncState w'))%nat =
    length (List.filter (is_dirty (chatIndex w)) listed) /\
  (chatsUpdated (syncState w') + errors (syncState w') <= chatsChecked (syncState w'))%nat /\
  chatsMissed (syncState w') = 0%nat /\
  isRunning (syncState w') = false /\
  syncStatusFile w' = Some (syncState w').
Proof.
  intros Hidle. cbn zeta.
  destruct (sweep_summary w Hidle) as (_ & _ & _ & _ & Hchk & Herr & Hupd & Hrun).
  destruct (periodicSync_status w Hidle) as (Hfile & Hmiss & _).
  assert (Hsum : (chatsUpdated (syncState (world_of (periodicSync w))) +
                  errors (syncState (world_of (periodicSync w))))%nat =
                 length (List.filter (is_dirty (chatIndex w)) (sweep_listing w))).
  { rewrite Herr, Hupd, successes_failures, length_refresh_results.
    now rewrite length_map. }
  repeat split; try assumption.
  rewrite Hsum, Hchk. apply length_filter_le.
Qed.

End ReportFacts.

Lemma X3_sync_report_accounts_for_every_dirty_entry_witness :
  isRunning (syncState (@initial_world flaky 0%nat)) = false /\
  (chatsUpdated (syncState (world_of (@periodicSync flaky (@initial_world flaky 0%nat)))) +
   errors (syncState (world_of (@periodicSync flaky (@initial_world flaky 0%nat)))))%nat =
  length (List.filter (is_dirty (chatIndex (@initial_world flaky 0%nat)))
            (@sweep_listing flaky (@initial_world flaky 0%nat))).
Proof.
  split; [reflexivity|].
  apply (@X3_sync_report_accounts_for_every_dirty_entry flaky
           (@initial_world flaky 0%nat) eq_refl).
Defined.

Section SecondSweepFacts.
Context `{Env}.

Lemma summary_of_lastMsgId (c : Chat) : lastMsgId (summary_of c) = chat_lastMsgId c.
Proof. reflexivity. Qed.

Lemma last_in {A : Type} (l : list A) (x : A) : last l = Some x -> In x l.
Proof.
  induction l as [|a l IH]; [discriminate|]. rewrite last_cons.
  destruct (last l) as [y|] eqn:E.
  - intros [= <-]. right. now apply IH.
  - intros [= <-]. now left.
Qed.

(** Against the index built from a consistent listing, no entry of that
    listing is dirty. *)
Lemma clean_against_own_index (listed : list Chat) :
  consistent_listing listed ->
  List.filter (is_dirty (buildIndex listed)) listed = [].
Proof.
  intros Hcons.
  assert (Hall : forall c, In c listed -> is_dirty (buildIndex listed) c = false).
  { intros c Hc. apply is_dirty_false. rewrite buildIndex_lookup.
    assert (Hin : In c (listed_entries (chat_id c) listed)).
    { apply filter_In. split; [exact Hc | apply String.eqb_refl]. }
    destruct (last (listed_entries (chat_id c) listed)) as [c'|] eqn:E.
    - exists (summary_of c'). split; [reflexivity|].
      apply last_in in E. apply filter_In in E as [Hc' Hid].
      apply String.eqb_eq in Hid. rewrite summary_of_lastMsgId.
      apply Hcons; [exact Hc' | exact Hc | now symmetry].
    - destruct (listed_entries (chat_id c) listed) as [|x l]; [destruct Hin|].
      rewrite last_cons in E. destruct (last l); discriminate. }
  clear Hcons. revert Hall. generalize (buildIndex listed). intros index.
  induction listed as [|c l IH]; intros Hall; [reflexivity|].
  cbn [List.filter]. rewrite (Hall c (or_introl eq_refl)).
  apply IH. intros c' Hc'. apply Hall. now right.
Qed.

(** X4: when the remote lists the same conversations with the same last
    message ids again, the sync that follows a completed sync requests no
    refresh at all and reports nothing updated and no error.  This holds
    whatever the refreshes of the first sync returned: a conversation whose
    refresh failed is in the new index like the others and is not
    requested again until its last message id changes. *)
Theorem X4_second_sync_over_same_listing_refreshes_nothing (w : World) :
  isRunning (syncState w) = false ->
  let w' := world_of (periodicSync w) in
  sweep_listing w' = sweep_listing w ->
  consistent_listing (sweep_listing w) ->
  refresh_calls (events_of (periodicSync w')) = [] /\
  chatsUpdated (syncState (world_of (periodicSync w'))) = 0%nat /\
  errors (syncState (world_of (periodicSync w'))) = 0%nat /\
  chatsChecked (syncState (world_of (periodicSync w'))) = length (sweep_listing w) /\
  chatIndex (world_of (periodicSync w')) = chatIndex w'.
Proof.
  intros Hidle. cbn zeta. intros Hsame Hcons.
  destruct (sweep_summary w Hidle) as (_ & _ & Hidx & _ & _ & _ & _ & Hidle').
  destruct (sweep_summary _ Hidle') as (Hcalls & _ & Hidx' & _ & Hchk & Herr & Hupd & _).
  rewrite Hsame, Hidx, (clean_against_own_index _ Hcons) in *.
  repeat split; assumption.
Qed.

End SecondSweepFacts.

Lemma X4_second_sync_over_same_listing_refreshes_nothing_witness :
  isRunning (syncState (@initial_world flaky 0%nat)) = false /\
  errors (syncState (world_of (@periodicSync flaky (@initial_world flaky 0%nat)))) = 1%nat /\
  refresh_calls
    (events_of (@periodicSync flaky
                  (world_of (@periodicSync flaky (@initial_world flaky 0%nat))))) = [].
Proof.
  split; [reflexivity|]. split; [vm_compute; reflexivity|].
  apply (@X4_second_sync_over_same_listing_refreshes_nothing flaky
           (@initial_world flaky 0%nat) eq_refl).
  - vm_compute. reflexivity.
  - intros c1 c2 H1 H2.
    assert (Hl : @sweep_listing flaky (@initial_world flaky 0%nat) =
                 [listed_chat "a" "m1"; listed_chat "b" "m2"])
      by (vm_compute; reflexivity).
    rewrite Hl in H1, H2.
    destruct H1 as [<-|[<-|[]]], H2 as [<-|[<-|[]]]; cbn; intros E;
      first [reflexivity | discriminate E].
Defined.

Section CacheFrameFacts.
Context `{Env}.

Lemma cache_files_other (chatId name : string) (msgs : list Message) (t : Z)
    (dir : gmap string File) :
  name <> json_file chatId -> name <> txt_file chatId ->
  cache_files chatId msgs t dir !! name = dir !! name.
Proof.
  intros Hj Ht. unfold cache_files.
  rewrite lookup_insert_ne by (intros E; apply Ht; now rewrite <- E).
  rewrite lookup_insert_ne by (intros E; apply Hj; now rewrite <- E).
  reflexivity.
Qed.

Lemma cache_files_keeps (chatId name : string) (msgs : list Message) (t : Z)
    (dir : gmap string File) :
  is_Some (dir !! name) -> is_Some (cache_files chatId msgs t dir !! name).
Proof.
  intros Hs. unfold cache_files.
  rewrite !lookup_insert. repeat case_decide; eauto.
Qed.

Lemma updateChatCache_files (chatId name : string) (w : World) :
  (name <> json_file chatId -> name <> txt_file chatId ->
   chatsDir (world_of (updateChatCache chatId w)) !! name = chatsDir w !! name) /\
  (is_Some (chatsDir w !! name) ->
   is_Some (chatsDir (world_of (updateChatCache chatId w)) !! name)).
Proof.
  rewrite updateChatCache_run.
  destruct (fst (api_messages (ext w) chatId)) as [|[[msgs|]]];
    try (split; [reflexivity | tauto]).
  rewrite saveChatMessages_run. project_run.
  destruct msgs as [|m l]; [split; [reflexivity | tauto]|].
  cbn [set_chatsDir chatsDir set_ext]. split.
  - apply cache_files_other.
  - apply cache_files_keeps.
Qed.

Lemma refreshLoop_files (chats : list Chat) (cnt : Counters) (name : string) (w : World) :
  ((forall id, In id (refresh_calls (events_of (refreshLoop chats cnt w))) ->
      name <> json_file id /\ name <> txt_file id) ->
   chatsDir (world_of (refreshLoop chats cnt w)) !! name = chatsDir w !! name) /\
  (is_Some (chatsDir w !! name) ->
   is_Some (chatsDir (world_of (refreshLoop chats cnt w)) !! name)).
Proof.
  revert cnt w. induction chats as [|chat later IH]; intros cnt w.
  - split; [reflexivity | tauto].
  - rewrite refreshLoop_step.
    destruct (is_dirty (chatIndex w) chat); [|apply IH].
    cbn zeta. project_run.
    set (r := updateChatCache (chat_id chat) w).
    set (cnt' := if value_of r then _ else _).
    destruct (IH cnt' (world_of r)) as [Hsame Hkeep].
    destruct (updateChatCache_files (chat_id chat) name w) as [Hsame1 Hkeep1].
    fold r in Hsame1, Hkeep1.
    destruct (updateChatCache_calls (chat_id chat) w) as [Hc1 _]. fold r in Hc1.
    split.
    + rewrite refresh_calls_app, Hc1. intros Hnames.
      rewrite Hsame.
      * apply Hsame1; apply (Hnames (chat_id chat)); now left.
      * intros id Hid. apply Hnames. now right.
    + intros Hs. apply Hkeep, Hkeep1, Hs.
Qed.

Lemma periodicSync_chatsDir (w : World) :
  isRunning (syncState w) = false ->
  chatsDir (world_of (periodicSync w)) =
  chatsDir (world_of (refreshLoop (sweep_listing w)
                        {| checked := 0; n_updated := 0; n_errors := 0 |}
                        (world_of (fetchChats page_offsets [] w)))) /\
  refresh_calls (events_of (periodicSync w)) =
  refresh_calls (events_of (refreshLoop (sweep_listing w)
                              {| checked := 0; n_updated := 0; n_errors := 0 |}
                              (world_of (fetchChats page_offsets [] w)))).
Proof.
  intros Hidle. rewrite (periodicSync_idle w Hidle). project_run.
  split; [reflexivity|].
  change (EvLog LogSyncStart :: ?l) with ([EvLog LogSyncStart] ++ l).
  change (events_of (fetchChats page_offsets [] w) ++ ?e :: ?l)
    with (events_of (fetchChats page_offsets [] w) ++ [e] ++ l).
  rewrite !refresh_calls_app, (fetchChats_calls page_offsets [] w).
  cbn. now rewrite app_nil_r.
Qed.

(** X5: a sync writes no cache file but the two files of the conversations
    it requested a refresh for, and it removes none: the cache of a
    conversation that is clean, or that the remote no longer lists, stays
    as it was. *)
Theorem X5_sync_touches_only_refreshed_cache_files (w : World) (name : string) :
  ((forall id, In id (refresh_calls (events_of (periodicSync w))) ->
      name <> json_file id /\ name <> txt_file id) ->
   chatsDir (world_of (periodicSync w)) !! name = chatsDir w !! name) /\
  (is_Some (chatsDir w !! name) ->
   is_Some (chatsDir (world_of (periodicSync w)) !! name)).
Proof.
  destruct (isRunning (syncState w)) eqn:Hrun.
  - rewrite (periodicSync_running w Hrun). split; [reflexivity | tauto].
  - destruct (periodicSync_chatsDir w Hrun) as [-> ->].
    assert (Hdir : chatsDir (world_of (fetchChats page_offsets [] w)) = chatsDir w)
      by (apply keeps_fetchChats; reflexivity).
    rewrite <- Hdir. apply refreshLoop_files.
Qed.

End CacheFrameFacts.

Lemma X5_sync_touches_only_refreshed_cache_files_witness :
  (forall id,
     In id (refresh_calls (events_of (@periodicSync flaky cached_c_world))) ->
     "c.json" <> json_file id /\ "c.json" <> txt_file id) /\
  is_Some (chatsDir cached_c_world !! "c.json") /\
  chatsDir (world_of (@periodicSync flaky cached_c_world)) !! "c.json" =
    chatsDir cached_c_world !! "c.json" /\
  is_Some (chatsDir (world_of (@periodicSync flaky cached_c_world)) !! "c.json").
Proof.
  assert (Hn : forall id,
     In id (refresh_calls (events_of (@periodicSync flaky cached_c_world))) ->
     "c.json" <> json_file id /\ "c.json" <> txt_file id).
  { intros id Hid.
    assert (Hc : refresh_calls (events_of (@periodicSync flaky cached_c_world)) = ["a"; "b"])
      by (vm_compute; reflexivity).
    rewrite Hc in Hid. destruct Hid as [<-|[<-|[]]]; split; discriminate. }
  assert (Hs : is_Some (chatsDir cached_c_world !! "c.json")) by (vm_compute; eauto).
  split; [exact Hn|]. split; [exact Hs|].
  destruct (@X5_sync_touches_only_refreshed_cache_files flaky cached_c_world "c.json")
    as [Hsame Hkeep].
  split; [exact (Hsame Hn) | exact (Hkeep Hs)].
Defined.

Section CacheReadFacts.
Context `{Env}.

(** Reading an id after a save under an id with the same file name. *)
Lemma read_after_save (saved asked : string) (msgs : list Message)
    (authorization : option string) (w : World) :
  msgs <> [] -> checkAuth authorization = true -> safeName saved = safeName asked ->
  events_of (handle_chat_messages authorization asked
               (world_of (saveChatMessages saved msgs w))) =
  [EvResponse 200
     (BodyCached {| cc_chat_id := saved; cc_messages := msgs;
                    cached_at := date_now (ext w) |})].
Proof.
  intros Hne Hauth Hname. rewrite saveChatMessages_run. project_run.
  destruct msgs as [|m l]; [contradiction|].
  unfold handle_chat_messages. rewrite Hauth. cbn [negb].
  rewrite bind_prepend. unfold gets. project_run.
  cbn [set_chatsDir chatsDir]. unfold cache_files. rewrite <- Hname.
  rewrite lookup_insert_ne by apply txt_name_is_not_json_name.
  rewrite lookup_insert_eq. reflexivity.
Qed.

(** X6: the cache is keyed by the encoded id.  After the messages of one
    conversation are saved, a read for any id with the same encoded name is
    answered with that saved conversation, under the id it was saved with. *)
Theorem X6_ids_with_one_file_name_share_the_cache (saved asked : string)
    (msgs : list Message) (authorization : option string) (w : World) :
  msgs <> [] -> checkAuth authorization = true -> safeName saved = safeName asked ->
  events_of (handle_chat_messages authorization asked
               (world_of (saveChatMessages saved msgs w))) =
  [EvResponse 200
     (BodyCached {| cc_chat_id := saved; cc_messages := msgs;
                    cached_at := date_now (ext w) |})].
Proof. apply read_after_save. Qed.

(** X7: the last write wins.  Of two saves for one conversation the read
    returns the messages and the time of the second; a save of an empty
    list writes nothing, so the read still returns the first. *)
Theorem X7_last_saved_messages_are_served (chatId : string)
    (first second : list Message) (authorization : option string) (w : World) :
  first <> [] -> checkAuth authorization = true ->
  let w1 := world_of (saveChatMessages chatId first w) in
  (second <> [] ->
   events_of (handle_chat_messages authorization chatId
                (world_of (saveChatMessages chatId second w1))) =
   [EvResponse 200
      (BodyCached {| cc_chat_id := chatId; cc_messages := second;
                     cached_at := date_now (ext w1) |})]) /\
  events_of (handle_chat_messages authorization chatId
               (world_of (saveChatMessages chatId [] w1))) =
  [EvResponse 200
     (BodyCached {| cc_chat_id := chatId; cc_messages := first;
                    cached_at := date_now (ext w) |})].
Proof.
  intros Hfirst Hauth. cbn zeta. split.
  - intros Hsecond. now apply read_after_save.
  - change (world_of (saveChatMessages chatId [] ?x)) with x.
    now apply read_after_save.
Qed.


End CacheReadFacts.

Lemma X6_ids_with_one_file_name_share_the_cache_witness :
  newest_first <> [] /\ @checkAuth quiet None = true /\
  safeName "a%2Fb" = safeName "a/b" /\
  events_of (@handle_chat_messages quiet None "a/b"
               (world_of (@saveChatMessages quiet "a%2Fb" newest_first
                            (@initial_world quiet 0%nat)))) =
  [EvResponse 200
     (BodyCached {| cc_chat_id := "a%2Fb"; cc_messages := newest_first;
                    cached_at := 1700000000000 |})].
Proof.
  split; [discriminate|]. split; [reflexivity|]. split; [reflexivity|].
  apply (@X6_ids_with_one_file_name_share_the_cache quiet "a%2Fb" "a/b" newest_first
           None (@initial_world quiet 0%nat)); [discriminate | reflexivity | reflexivity].
Defined.

Lemma X7_last_saved_messages_are_served_witness :
  newest_first <> [] /\ @checkAuth quiet None = true /\
  [text_message "m3" 30 7 "third"] <> [] /\
  events_of (@handle_chat_messages quiet None "u2i-1"
               (world_of (@saveChatMessages quiet "u2i-1" [text_message "m3" 30 7 "third"]
                  (world_of (@saveChatMessages quiet "u2i-1" newest_first
                               (@initial_world quiet 0%nat)))))) =
  [EvResponse 200
     (BodyCached {| cc_chat_id := "u2i-1";
                    cc_messages := [text_message "m3" 30 7 "third"];
                    cached_at := 1700000000000 |})].
Proof.
  split; [discriminate|]. split; [reflexivity|]. split; [discriminate|].
  apply (proj1 (@X7_last_saved_messages_are_served quiet "u2i-1" newest_first
                  [text_message "m3" 30 7 "third"] None (@initial_world quiet 0%nat)
                  ltac:(discriminate) eq_refl)).
  discriminate.
Defined.


Section WebhookMarkerFacts.
Context `{Env}.

Lemma updateChatCache_saved (chatId : string) (msgs : list Message) (w : World) :
  fst (api_messages (ext w) chatId) = ApiData {| messages := Some msgs |} ->
  msgs <> [] ->
  chatsDir (world_of (updateChatCache chatId w)) !! json_file chatId =
  Some (JsonFile {| cc_chat_id := chatId; cc_messages := msgs;
                    cached_at := date_now (snd (api_messages (ext w) chatId)) |}).
Proof.
  intros Hr Hne. rewrite updateChatCache_run, Hr, saveChatMessages_run. project_run.
  destruct msgs as [|m l]; [contradiction|].
  cbn [set_chatsDir chatsDir set_ext ext]. unfold cache_files, json_file.
  rewrite lookup_insert_ne by apply txt_name_is_not_json_name.
  apply lookup_insert_eq.
Qed.

(** X9: a notification that carries a conversation id puts the marker
    (message id, or the empty string, and the time) under that id in the
    webhook-seen map, leaves the markers of other ids alone, and requests
    one refresh, for that id; when the remote answers with messages, the
    cache file of the conversation holds them afterwards.  Neither the
    file of the webhook-seen map nor the index file is written: the marker
    is in memory only, until the next sync saves it. *)
Theorem X9_webhook_marks_and_refreshes_its_conversation (body chatId : string)
    (v : option WebhookValue) (w : World) :
  JSON_parse body = Some (WJValue v) ->
  webhook_chat_id body = Some chatId ->
  let r := handle_webhook body w in
  let w1 :=
    set_webhookSeen
      (<[chatId := {| seen_lastMsgId := default "" (v ≫= wv_id);
                      seen_at := date_now (ext w) |}]> (webhookSeen w)) w in
  webhookSeen (world_of r) !! chatId =
    Some {| seen_lastMsgId := default "" (v ≫= wv_id); seen_at := date_now (ext w) |} /\
  (forall other, other <> chatId ->
     webhookSeen (world_of r) !! other = webhookSeen w !! other) /\
  refresh_calls (events_of r) = [chatId] /\
  listing_calls (events_of r) = [] /\
  webhookSeenFile (world_of r) = webhookSeenFile w /\
  indexFile (world_of r) = indexFile w /\
  (forall msgs,
     fst (api_messages (ext w) chatId) = ApiData {| messages := Some msgs |} ->
     msgs <> [] ->
     chatsDir (world_of r) !! json_file chatId =
     Some (JsonFile {| cc_chat_id := chatId; cc_messages := msgs;
                       cached_at := date_now (snd (api_messages (ext w) chatId)) |})).
Proof.
  intros Hparse Hid. cbn zeta. rewrite handle_webhook_run, Hparse, Hid.
  cbn zeta. project_run.
  set (w1 := set_webhookSeen _ w).
  assert (Hseen : webhookSeen (world_of (updateChatCache chatId w1)) = webhookSeen w1)
    by apply (keeps_updateChatCache webhookSeen _ beside_cache_webhookSeen).
  assert (Hfile : webhookSeenFile (world_of (updateChatCache chatId w1)) = webhookSeenFile w1)
    by (apply keeps_updateChatCache; split; reflexivity).
  assert (Hifile : indexFile (world_of (updateChatCache chatId w1)) = indexFile w1)
    by (apply keeps_updateChatCache; split; reflexivity).
  destruct (updateChatCache_calls chatId w1) as [Hc Hl].
  rewrite Hseen, Hfile, Hifile.
  change (?a :: ?b :: ?c :: ?l) with ([a; b; c] ++ l).
  rewrite refresh_calls_app, listing_calls_app, Hc, Hl.
  split; [apply lookup_insert_eq|].
  split; [intros other Hne; now apply lookup_insert_ne|].
  repeat split.
  intros msgs Hr Hne. now apply (updateChatCache_saved chatId msgs w1).
Qed.

End WebhookMarkerFacts.

Lemma X9_webhook_marks_and_refreshes_its_conversation_witness :
  @JSON_parse notified "chat u2i-1 m9" =
    Some (WJValue (Some {| wv_chat_id := Some "u2i-1"; wv_id := Some "m9" |})) /\
  @webhook_chat_id notified "chat u2i-1 m9" = Some "u2i-1" /\
  webhookSeen (world_of (@handle_webhook notified "chat u2i-1 m9"
                           (@initial_world notified 0%nat))) !! "u2i-1" =
    Some {| seen_lastMsgId := "m9"; seen_at := 1700000000000 |} /\
  chatsDir (world_of (@handle_webhook notified "chat u2i-1 m9"
                        (@initial_world notified 0%nat))) !! json_file "u2i-1" =
    Some (JsonFile {| cc_chat_id := "u2i-1"; cc_messages := newest_first;
                      cached_at := 1700000001000 |}).
Proof.
  split; [reflexivity|]. split; [reflexivity|].
  pose proof (@X9_webhook_marks_and_refreshes_its_conversation notified
                "chat u2i-1 m9" "u2i-1" _ (@initial_world notified 0%nat)
                eq_refl eq_refl) as (Hmark & _ & _ & _ & _ & _ & Hsaved).
  split; [exact Hmark|].
  apply (Hsaved newest_first); [reflexivity | discriminate].
Defined.

Section SummaryFacts.
Context `{Env}.

Lemma substring_length_le (n m : nat) (s : string) :
  (String.length (String.substring n m s) <= m)%nat.
Proof.
  revert n m. induction s as [|c s IH]; intros n m.
  - destruct n, m; cbn; lia.
  - destruct n as [|n]; destruct m as [|m]; cbn; try lia.
    + specialize (IH 0%nat m). lia.
    + apply IH.
    + apply IH.
Qed.

(** X10: the index entry built for a listed chat.  Its text preview has at
    most 100 characters; its last message id is the one the dirty test
    reads from the listing; each counterpart name is the non-empty name of
    a listed user other than the operator account; the direction is
    outbound exactly when the last message's author is the operator
    account; and a chat without last message gets the empty entry. *)
Theorem X10_index_entry_of_a_listed_chat (c : Chat) :
  (String.length (lastText (summary_of c)) <= 100)%nat /\
  lastMsgId (summary_of c) = chat_lastMsgId c /\
  (forall n, In n (s_users (summary_of c)) ->
     n <> "" /\
     exists us u, users c = Some us /\ In u us /\ u_name u = Some n /\
                  u_id u <> Some AVITO_USER_ID) /\
  (forall us u n, users c = Some us -> In u us -> u_name u = Some n -> n <> "" ->
     u_id u <> Some AVITO_USER_ID -> In n (s_users (summary_of c))) /\
  (lastDir (summary_of c) = DirOut <->
   exists m, last_message c = Some m /\ m_author_id m = Some AVITO_USER_ID) /\
  (last_message c = None ->
   updated (summary_of c) = 0 /\ lastMsgId (summary_of c) = "" /\
   lastDir (summary_of c) = DirIn /\ lastText (summary_of c) = "").
Proof.
  split; [apply substring_length_le|]. split; [reflexivity|].
  split; [|split; [|split]].
  - intros n Hn. cbn [summary_of s_users] in Hn.
    apply list_elem_of_In, list_elem_of_omap in Hn as (o & Ho & Hf).
    apply list_elem_of_In, in_map_iff in Ho as (u & <- & Hu).
    apply filter_In in Hu as [Hu Hid].
    destruct (u_name u) as [n'|] eqn:Hname; [|discriminate].
    destruct (String.eqb n' "") eqn:Hempty; [discriminate|].
    injection Hf as <-. apply String.eqb_neq in Hempty. split; [exact Hempty|].
    destruct (users c) as [us|]; [|destruct Hu].
    exists us, u. repeat split; try assumption.
    destruct (u_id u) as [i|]; [|discriminate].
    intros [= ->]. rewrite Z.eqb_refl in Hid. discriminate.
  - intros us u n Hus Hu Hname Hne Hid. cbn [summary_of s_users].
    apply list_elem_of_In, list_elem_of_omap. exists (Some n). split.
    + apply list_elem_of_In, in_map_iff. exists u. split; [exact Hname|].
      apply filter_In. rewrite Hus. split; [exact Hu|].
      destruct (u_id u) as [i|]; [|reflexivity].
      apply negb_true_iff, Z.eqb_neq. congruence.
    + apply String.eqb_neq in Hne. now rewrite Hne.
  - cbn [summary_of lastDir]. destruct (last_message c) as [m|]; cbn.
    + destruct (m_author_id m) as [a|] eqn:Ha.
      * destruct (a =? AVITO_USER_ID) eqn:E.
        -- apply Z.eqb_eq in E. subst a. split; [|reflexivity].
           intros _. exists m. now split.
        -- apply Z.eqb_neq in E. split; [discriminate|].
           intros (m' & [= <-] & Hm'). rewrite Ha in Hm'. congruence.
      * split; [discriminate|].
        intros (m' & [= <-] & Hm'). rewrite Ha in Hm'. discriminate.
    + split; [discriminate|]. intros (m' & Hm & _). discriminate.
  - intros Hnone. cbn [summary_of updated lastMsgId lastDir lastText].
    rewrite Hnone. repeat split.
Qed.

End SummaryFacts.

Lemma X10_index_entry_of_a_listed_chat_witness :
  In "Ivan" (s_users (@summary_of quiet (listed_chat "a" "m1"))) /\
  "Ivan" <> "" /\
  (exists us u, users (listed_chat "a" "m1") = Some us /\ In u us /\
                u_name u = Some "Ivan" /\ u_id u <> Some (@AVITO_USER_ID quiet)).
Proof.
  assert (Hin : In "Ivan" (s_users (@summary_of quiet (listed_chat "a" "m1"))))
    by (vm_compute; now left).
  split; [exact Hin|].
  apply (proj1 (proj2 (proj2 (@X10_index_entry_of_a_listed_chat quiet
                                (listed_chat "a" "m1")))) "Ivan" Hin).
Defined.

Section DurabilityFacts.
Context `{Env}.






End DurabilityFacts.

(** * The remote API client *)

Section ClientFacts.
Context `{Network}.

Lemma getToken_fresh (s : ClientState) :
  token_is_fresh (tokenCache s) (net_now (net s)) = true ->
  getToken s = (Returned (token (tokenCache s)), s, []).
Proof. intros Hf. unfold getToken. now rewrite Hf. Qed.

Lemma getToken_refreshed (s : ClientState) (body : string) (n : Net) (data : TokenData) :
  token_is_fresh (tokenCache s) (net_now (net s)) = false ->
  httpsRequest (net s) PostToken = (HttpResponse 200 body, n) ->
  JSON_parse_token body = Some data ->
  getToken s =
  (Returned (access_token data),
   {| net := n;
      tokenCache := {| token := access_token data;
                       expiresAt := (fun e => net_now (net s) + e * 1000) <$> expires_in data |} |},
   [ClientLogged LogRefreshingToken; ClientSent PostToken; ClientLogged LogTokenRefreshed]).
Proof.
  intros Hf Hreq Hparse. unfold getToken. rewrite Hf, Hreq. cbn. now rewrite Hparse.
Qed.

Lemma getToken_failed (s : ClientState) :
  token_is_fresh (tokenCache s) (net_now (net s)) = false ->
  token_request_fails (net s) ->
  result_of (getToken s) = Thrown /\
  tokenCache (client_of (getToken s)) = tokenCache s /\
  net (client_of (getToken s)) = snd (httpsRequest (net s) PostToken) /\
  token_requests (trace_of (getToken s)) = 1%nat /\
  api_requests (trace_of (getToken s)) = [].
Proof.
  intros Hf Hfail. unfold getToken, token_request_fails in *. rewrite Hf.
  destruct (httpsRequest (net s) PostToken) as [[|status body] n]; cbn in *.
  - repeat split.
  - destruct (status =? 200) eqn:E.
    + apply Z.eqb_eq in E. destruct Hfail as [Hne | Hparse]; [contradiction|].
      rewrite Hparse. repeat split.
    + repeat split.
Qed.

Lemma getToken_requests (s : ClientState) :
  (token_requests (trace_of (getToken s)) <= 1)%nat /\
  api_requests (trace_of (getToken s)) = [].
Proof.
  unfold getToken. destruct (token_is_fresh _ _); [split; [cbn; lia | reflexivity]|].
  destruct (httpsRequest (net s) PostToken) as [[|status body] n];
    [split; [cbn; lia | reflexivity]|].
  destruct (status =? 200); [|split; [cbn; lia | reflexivity]].
  destruct (JSON_parse_token body); split; cbn; first [lia | reflexivity].
Qed.

(** X12: how long a token lives in the cache.  When the cache has no
    fresh token and the token request succeeds, [getToken] stores the new
    token with the expiry "time of the call plus [expires_in] seconds" and
    returns it.  From then on it answers from the cache, without any
    request, as long as the clock is more than an hour before that expiry,
    and sends a new token request as soon as it is not: a token that lives
    an hour or less is requested anew on every call. *)
Theorem X12_token_is_cached_until_an_hour_before_expiry (s : ClientState)
    (body t : string) (e : Z) (n : Net) :
  token_is_fresh (tokenCache s) (net_now (net s)) = false ->
  httpsRequest (net s) PostToken = (HttpResponse 200 body, n) ->
  JSON_parse_token body = Some {| access_token := Some t; expires_in := Some e |} ->
  t <> "" ->
  let expiry := net_now (net s) + e * 1000 in
  result_of (getToken s) = Returned (Some t) /\
  tokenCache (client_of (getToken s)) = {| token := Some t; expiresAt := Some expiry |} /\
  token_requests (trace_of (getToken s)) = 1%nat /\
  (forall s' : ClientState,
     tokenCache s' = tokenCache (client_of (getToken s)) ->
     (net_now (net s') + 3600000 < expiry ->
      getToken s' = (Returned (Some t), s', [])) /\
     (expiry <= net_now (net s') + 3600000 ->
      token_requests (trace_of (getToken s')) = 1%nat)).
Proof.
  intros Hf Hreq Hparse Ht. cbn zeta.
  rewrite (getToken_refreshed s body n _ Hf Hreq Hparse).
  split; [reflexivity|]. split; [reflexivity|]. split; [reflexivity|].
  intros s' Hcache. cbn in Hcache.
  assert (Htruthy : truthy (Some t) = true).
  { cbn. apply negb_true_iff, String.eqb_neq, Ht. }
  split.
  - intros Hbefore. rewrite getToken_fresh; rewrite Hcache.
    + reflexivity.
    + unfold token_is_fresh. cbn [token expiresAt]. rewrite Htruthy.
      apply Z.ltb_lt in Hbefore. now rewrite Hbefore.
  - intros Hafter. unfold getToken. rewrite Hcache.
    unfold token_is_fresh at 1. cbn [token expiresAt]. rewrite Htruthy.
    replace (net_now (net s') + 3600000 <? net_now (net s) + e * 1000) with false
      by (symmetry; apply Z.ltb_ge; exact Hafter).
    cbn [andb].
    destruct (httpsRequest (net s') PostToken) as [[|status body'] n']; [reflexivity|].
    destruct (status =? 200); [|reflexivity].
    destruct (JSON_parse_token body'); reflexivity.
Qed.

(** X13: without a token there is no API request.  When the cache has no
    fresh token and the token request fails, [avitoApi] sends nothing but
    that token request, answers [null], and leaves the token cache as it
    was. *)
Theorem X13_no_token_no_api_request (method path : string) (s : ClientState) :
  token_is_fresh (tokenCache s) (net_now (net s)) = false ->
  token_request_fails (net s) ->
  result_of (avitoApi method path s) = ApiNull /\
  api_requests (trace_of (avitoApi method path s)) = [] /\
  token_requests (trace_of (avitoApi method path s)) = 1%nat /\
  tokenCache (client_of (avitoApi method path s)) = tokenCache s /\
  last (trace_of (avitoApi method path s)) = Some (ClientLogged (LogApiError method path)).
Proof.
  intros Hf Hfail.
  destruct (getToken_failed s Hf Hfail) as (Hr & Hc & _ & Ht & Ha).
  unfold avitoApi.
  destruct (getToken s) as [[[tok|] s1] e1]; [discriminate Hr|].
  cbn in Hc, Ht, Ha |- *. unfold api_requests, token_requests in *.
  rewrite omap_app, List.filter_app, length_app, Ha, Ht, last_snoc.
  repeat split; assumption.
Qed.

End ClientFacts.

Lemma X12_token_is_cached_until_an_hour_before_expiry_witness :
  @token_is_fresh (tokenCache (fresh_client [HttpResponse 200 "t1"]))
     (@net_now scripted_network (net (fresh_client [HttpResponse 200 "t1"]))) = false /\
  "t1" <> "" /\
  tokenCache (client_of (@getToken scripted_network (fresh_client [HttpResponse 200 "t1"]))) =
    {| token := Some "t1"; expiresAt := Some (1700000000000 + 7200 * 1000) |} /\
  @getToken scripted_network
    (client_of (@getToken scripted_network (fresh_client [HttpResponse 200 "t1"]))) =
  (Returned (Some "t1"),
   client_of (@getToken scripted_network (fresh_client [HttpResponse 200 "t1"])), []).
Proof.
  assert (Hne : "t1" <> "") by discriminate.
  pose proof (@X12_token_is_cached_until_an_hour_before_expiry scripted_network
                (fresh_client [HttpResponse 200 "t1"]) "t1" "t1" 7200 []
                eq_refl eq_refl eq_refl Hne) as (_ & Hcache & _ & Hnext).
  split; [reflexivity|]. split; [exact Hne|]. split; [exact Hcache|].
  apply (Hnext _ eq_refl). vm_compute. reflexivity.
Defined.

Lemma X13_no_token_no_api_request_witness :
  @token_is_fresh (tokenCache (fresh_client [HttpResponse 500 "down"]))
     (@net_now scripted_network (net (fresh_client [HttpResponse 500 "down"]))) = false /\
  @token_request_fails scripted_network (net (fresh_client [HttpResponse 500 "down"])) /\
  result_of (@avitoApi scripted_network "GET" "/chats" (fresh_client [HttpResponse 500 "down"])) =
    ApiNull /\
  api_requests
    (trace_of (@avitoApi scripted_network "GET" "/chats"
                 (fresh_client [HttpResponse 500 "down"]))) = [].
Proof.
  assert (Hfail : @token_request_fails scripted_network
                    (net (fresh_client [HttpResponse 500 "down"])))
    by (left; discriminate).
  pose proof (@X13_no_token_no_api_request scripted_network "GET" "/chats"
                (fresh_client [HttpResponse 500 "down"]) eq_refl Hfail) as (Hr & Ha & _).
  split; [reflexivity|]. split; [exact Hfail|]. split; [exact Hr | exact Ha].
Defined.

Section ClientRetryFacts.
Context `{Network}.

Lemma api_requests_app (e1 e2 : list ClientEvent) :
  api_requests (e1 ++ e2) = api_requests e1 ++ api_requests e2.
Proof. unfold api_requests. apply omap_app. Qed.

Lemma token_requests_app (e1 e2 : list ClientEvent) :
  token_requests (e1 ++ e2) = (token_requests e1 + token_requests e2)%nat.
Proof. unfold token_requests. now rewrite List.filter_app, length_app. Qed.

Lemma parsed_body_run (method path body : string) (s : ClientState)
    (evs : list ClientEvent) :
  result_of (parsed_body method path body s evs) = body_result body /\
  client_of (parsed_body method path body s evs) = s /\
  api_requests (trace_of (parsed_body method path body s evs)) = api_requests evs /\
  token_requests (trace_of (parsed_body method path body s evs)) = token_requests evs.
Proof.
  unfold parsed_body, body_result.
  destruct (JSON_parse_body body) as [[j|]|]; repeat split.
  - cbn [trace_of snd]. rewrite api_requests_app. cbn. apply app_nil_r.
  - cbn [trace_of snd]. rewrite token_requests_app. cbn in *. lia.
Qed.

(** The token cache with its token dropped, as after a 401. *)
Lemma getToken_after_401 (n : Net) (c : TokenCache) :
  token_requests
    (trace_of (getToken {| net := n;
                           tokenCache := {| token := None; expiresAt := expiresAt c |} |})) =
  1%nat.
Proof.
  unfold getToken, token_is_fresh. cbn [tokenCache token truthy andb net].
  destruct (httpsRequest n PostToken) as [[|status body] n']; [reflexivity|].
  destruct (status =? 200); [|reflexivity].
  destruct (JSON_parse_token body); reflexivity.
Qed.

(** X14: a 401 is retried once, with a new token.  When the API request
    is answered with status 401, [avitoApi] drops the cached token, always
    sends a token request, and, if that gives a token, repeats the API
    request once with it; the answer to the repeated request is the result
    whatever its status, a second 401 included.  If no new token can be had
    the result is [null] and the request is not repeated. *)
Theorem X14_unauthorized_request_is_retried_once (method path : string)
    (s s1 : ClientState) (tok : option string) (e1 : list ClientEvent)
    (body : string) (n2 : Net) :
  getToken s = (Returned tok, s1, e1) ->
  httpsRequest (net s1) (ApiCall method path tok) = (HttpResponse 401 body, n2) ->
  let s3 := {| net := n2;
               tokenCache := {| token := None; expiresAt := expiresAt (tokenCache s1) |} |} in
  token_requests (trace_of (getToken s3)) = 1%nat /\
  (forall newToken s4 e4 status' body' n5,
     getToken s3 = (Returned newToken, s4, e4) ->
     httpsRequest (net s4) (ApiCall method path newToken) = (HttpResponse status' body', n5) ->
     result_of (avitoApi method path s) = body_result body' /\
     api_requests (trace_of (avitoApi method path s)) = [tok; newToken] /\
     tokenCache (client_of (avitoApi method path s)) = tokenCache s4) /\
  (forall s4 e4,
     getToken s3 = (Thrown, s4, e4) ->
     result_of (avitoApi method path s) = ApiNull /\
     api_requests (trace_of (avitoApi method path s)) = [tok]).
Proof.
  intros Hget Hreq. cbn zeta.
  pose proof (getToken_requests s) as [_ Ha1]. rewrite Hget in Ha1. cbn [trace_of snd] in Ha1.
  split; [apply getToken_after_401|]. split.
  - intros newToken s4 e4 status' body' n5 Hget3 Hretry.
    pose proof (getToken_requests
                  {| net := n2;
                     tokenCache := {| token := None;
                                      expiresAt := expiresAt (tokenCache s1) |} |})
      as [_ Ha4].
    rewrite Hget3 in Ha4. cbn [trace_of snd] in Ha4.
    unfold avitoApi. rewrite Hget, Hreq. cbn [Z.eqb Pos.eqb].
    rewrite Hget3, Hretry.
    destruct (parsed_body_run method path body'
                {| net := n5; tokenCache := tokenCache s4 |}
                (((e1 ++ [ClientSent (ApiCall method path tok)]) ++ e4 ++
                  [ClientSent (ApiCall method path newToken)])))
      as (Hr & Hc & Ha & _).
    rewrite Hr, Hc, Ha, !api_requests_app, Ha1, Ha4. repeat split.
  - intros s4 e4 Hget3.
    pose proof (getToken_requests
                  {| net := n2;
                     tokenCache := {| token := None;
                                      expiresAt := expiresAt (tokenCache s1) |} |})
      as [_ Ha4].
    rewrite Hget3 in Ha4. cbn [trace_of snd] in Ha4.
    unfold avitoApi. rewrite Hget, Hreq. cbn [Z.eqb Pos.eqb]. rewrite Hget3.
    cbn [result_of trace_of fst snd].
    rewrite !api_requests_app, Ha1, Ha4. repeat split.
Qed.

(** X15: [avitoApi] always comes back with a result, after at most two
    API requests and at most two token requests, whatever the network
    does. *)
Theorem X15_api_call_sends_at_most_two_requests_of_each_kind (method path : string)
    (s : ClientState) :
  (length (api_requests (trace_of (avitoApi method path s))) <= 2)%nat /\
  (token_requests (trace_of (avitoApi method path s)) <= 2)%nat.
Proof.
  unfold avitoApi.
  pose proof (getToken_requests s) as [Ht1 Ha1].
  destruct (getToken s) as [[[tok|] s1] e1]; cbn [trace_of snd] in Ht1, Ha1.
  - destruct (httpsRequest (net s1) (ApiCall method path tok)) as [[|status body] n2].
    + cbn [trace_of snd]. rewrite !api_requests_app, !token_requests_app, Ha1.
      cbn in *. lia.
    + destruct (status =? 401).
      * set (s3 := {| net := n2; tokenCache := _ |}).
        pose proof (getToken_requests s3) as [Ht3 Ha3].
        destruct (getToken s3) as [[[newToken|] s4] e4]; cbn [trace_of snd] in Ht3, Ha3.
        -- destruct (httpsRequest (net s4) (ApiCall method path newToken))
             as [[|status' body'] n5].
           ++ cbn [trace_of snd]. rewrite !api_requests_app, !token_requests_app, Ha1, Ha3.
              cbn in *. lia.
           ++ destruct (parsed_body_run method path body'
                          {| net := n5; tokenCache := tokenCache s4 |}
                          (((e1 ++ [ClientSent (ApiCall method path tok)]) ++ e4 ++
                            [ClientSent (ApiCall method path newToken)])))
                as (_ & _ & Ha & Ht).
              rewrite Ha, Ht, !api_requests_app, !token_requests_app, Ha1, Ha3.
              cbn in *. lia.
        -- cbn [trace_of snd]. rewrite !api_requests_app, !token_requests_app, Ha1, Ha3.
           cbn in *. lia.
      * destruct (parsed_body_run method path body
                    {| net := n2; tokenCache := tokenCache s1 |}
                    (e1 ++ [ClientSent (ApiCall method path tok)]))
          as (_ & _ & Ha & Ht).
        rewrite Ha, Ht, !api_requests_app, !token_requests_app, Ha1. cbn in *. lia.
  - cbn [trace_of snd]. rewrite !api_requests_app, !token_requests_app, Ha1. cbn in *. lia.
Qed.

(** X16: apart from 401, the status of the answer plays no part.  The
    result of [avitoApi] is then the parsed body of the first answer (or
    [null] when it does not parse), after one API request: the JSON body
    of an error answer, a 500 say, is handed to the caller as data. *)
Theorem X16_status_other_than_401_is_ignored (method path : string)
    (s s1 : ClientState) (tok : option string) (e1 : list ClientEvent)
    (status : Z) (body : string) (n2 : Net) :
  getToken s = (Returned tok, s1, e1) ->
  httpsRequest (net s1) (ApiCall method path tok) = (HttpResponse status body, n2) ->
  status <> 401 ->
  result_of (avitoApi method path s) = body_result body /\
  api_requests (trace_of (avitoApi method path s)) = [tok] /\
  client_of (avitoApi method path s) = {| net := n2; tokenCache := tokenCache s1 |}.
Proof.
  intros Hget Hreq Hstatus.
  pose proof (getToken_requests s) as [_ Ha1]. rewrite Hget in Ha1. cbn [trace_of snd] in Ha1.
  unfold avitoApi. rewrite Hget, Hreq.
  replace (status =? 401) with false by (symmetry; now apply Z.eqb_neq).
  destruct (parsed_body_run method path body
              {| net := n2; tokenCache := tokenCache s1 |}
              (e1 ++ [ClientSent (ApiCall method path tok)])) as (Hr & Hc & Ha & _).
  rewrite Hr, Hc, Ha, api_requests_app, Ha1. repeat split.
Qed.

End ClientRetryFacts.

Lemma X14_unauthorized_request_is_retried_once_witness :
  result_of (@avitoApi scripted_network "GET" "/chats" refused_twice) = ApiData "again" /\
  api_requests (trace_of (@avitoApi scripted_network "GET" "/chats" refused_twice)) =
    [Some "t1"; Some "t2"].
Proof.
  pose proof (@X14_unauthorized_request_is_retried_once scripted_network "GET" "/chats"
                refused_twice _ _ _ _ _ eq_refl eq_refl) as (_ & Hretry & _).
  destruct (Hretry _ _ _ _ _ _ eq_refl eq_refl) as (Hr & Ha & _).
  split; [exact Hr | exact Ha].
Defined.

Lemma X16_status_other_than_401_is_ignored_witness :
  (500 <> 401) /\
  result_of (@avitoApi scripted_network "GET" "/chats" server_error) =
    ApiData "internal error".
Proof.
  assert (Hne : 500 <> 401) by lia. split; [exact Hne|].
  apply (@X16_status_other_than_401_is_ignored scripted_network "GET" "/chats"
           server_error _ _ _ _ _ _ eq_refl eq_refl Hne).
Defined.

Section EmptyListingFacts.
Context `{Env}.

Lemma all_dirty_against_empty_index (listed : list Chat) :
  List.filter (is_dirty (∅ : gmap string Summary)) listed = listed.
Proof.
  induction listed as [|c l IH]; [reflexivity|]. cbn [List.filter].
  unfold is_dirty at 1. rewrite lookup_empty. cbn. now rewrite IH.
Qed.

(** X17: a sync whose first listing request fails or brings no chat
    replaces the index, in memory and in its file, by the empty index,
    whatever the index held; it checks nothing, requests no refresh,
    counts no error and leaves the cache alone.  The sync after it
    therefore requests a refresh for every entry the remote lists. *)
Theorem X17_sync_without_listing_empties_the_index (w : World) :
  isRunning (syncState w) = false ->
  pages_then_failure (ext w) page_offsets [] \/ pages_then_end (ext w) page_offsets [] [] ->
  let w' := world_of (periodicSync w) in
  sweep_listing w = [] /\
  chatIndex w' = ∅ /\
  indexFile w' = Some ∅ /\
  chatsChecked (syncState w') = 0%nat /\
  errors (syncState w') = 0%nat /\
  refresh_calls (events_of (periodicSync w)) = [] /\
  chatsDir w' = chatsDir w /\
  refresh_calls (events_of (periodicSync w')) = map chat_id (sweep_listing w').
Proof.
  intros Hidle Hfirst. cbn zeta.
  assert (Hlisted : sweep_listing w = []).
  { destruct Hfirst as [Hf | He].
    - now destruct (fetchChats_pages page_offsets [] [] w Hf) as [Hv _].
    - now destruct (fetchChats_pages_end [] [] page_offsets [] w He) as [Hv _]. }
  destruct (sweep_summary w Hidle) as (Hcalls & _ & Hidx & Hfile & Hchk & Herr & _ & Hidle').
  destruct (periodicSync_chatsDir w Hidle) as [Hdir _].
  rewrite Hlisted in *.
  cbn [List.filter map buildIndex foldl length refresh_results] in Hcalls, Herr, Hidx,
    Hfile, Hchk.
  unfold failures in Herr. cbn [List.filter length] in Herr.
  assert (Hdir' : chatsDir (world_of (periodicSync w)) = chatsDir w).
  { rewrite Hdir. cbn [refreshLoop]. unfold ret. project_run.
    apply keeps_fetchChats. reflexivity. }
  destruct (sweep_summary _ Hidle') as (Hcalls' & _).
  rewrite Hcalls', Hidx, all_dirty_against_empty_index.
  repeat split; assumption.
Qed.

End EmptyListingFacts.

Lemma X17_sync_without_listing_empties_the_index_witness :
  isRunning (syncState indexed_world) = false /\
  @pages_then_failure quiet (ext indexed_world) page_offsets [] /\
  is_Some (chatIndex indexed_world !! "a") /\
  chatIndex (world_of (@periodicSync quiet indexed_world)) = ∅.
Proof.
  assert (Hf : @pages_then_failure quiet (ext indexed_world) page_offsets [])
    by (left; reflexivity).
  split; [reflexivity|]. split; [exact Hf|]. split; [vm_compute; eauto|].
  apply (@X17_sync_without_listing_empties_the_index quiet indexed_world eq_refl
           (or_introl Hf)).
Defined.

(** * The listing endpoints *)

Section ListingFacts.
Context `{Env}.
Variable Object_entries : gmap string Summary -> list (string * Summary).
Variable newer_than_cutoff : Z -> Z -> Z -> bool.
Hypothesis Object_entries_enumerates :
  forall m : gmap string Summary, Permutation (Object_entries m) (map_to_list m).

Lemma insert_by_updated_perm (kv : string * Summary) (l : list (string * Summary)) :
  Permutation (kv :: l) (insert_by_updated kv l).
Proof.
  induction l as [|x t IH]; [reflexivity|]. cbn [insert_by_updated].
  destruct (updated (snd x) <=? updated (snd kv)); [reflexivity|].
  rewrite perm_swap. now apply perm_skip.
Qed.

Lemma sort_by_updated_perm (l : list (string * Summary)) :
  Permutation l (sort_by_updated l).
Proof.
  induction l as [|kv l IH]; [reflexivity|]. cbn [sort_by_updated foldr].
  rewrite <- insert_by_updated_perm. now apply perm_skip.
Qed.

Lemma descending_cons (e : ChatEntry) (l : list ChatEntry) :
  descending_updated (e :: l) =
  match l with
  | [] => true
  | e' :: _ => (updated (ce_info e') <=? updated (ce_info e)) && descending_updated l
  end.
Proof. now destruct l. Qed.

Lemma descending_insert (kv : string * Summary) (l : list (string * Summary)) :
  descending_updated (map chat_entry l) = true ->
  descending_updated (map chat_entry (insert_by_updated kv l)) = true.
Proof.
  induction l as [|x t IH]; intros Hs; [reflexivity|].
  cbn [insert_by_updated].
  destruct (updated (snd x) <=? updated (snd kv)) eqn:E.
  - cbn [map]. rewrite descending_cons. cbn [map] in Hs.
    cbn [chat_entry ce_info]. now rewrite E.
  - assert (Hkx : (updated (snd kv) <=? updated (snd x)) = true)
      by (apply Z.leb_le; apply Z.leb_gt in E; lia).
    cbn [map] in Hs |- *. rewrite descending_cons in Hs.
    destruct t as [|y t'].
    + cbn [insert_by_updated map]. rewrite descending_cons.
      cbn [chat_entry ce_info]. now rewrite Hkx.
    + cbn [map] in Hs. apply andb_true_iff in Hs as [Hyx Ht]. specialize (IH Ht).
      rewrite descending_cons. cbn [insert_by_updated] in *.
      destruct (updated (snd y) <=? updated (snd kv)); cbn [map] in *.
      * cbn [chat_entry ce_info]. now rewrite Hkx, IH.
      * cbn [chat_entry ce_info] in Hyx |- *. now rewrite Hyx, IH.
Qed.

Lemma sort_by_updated_descending (l : list (string * Summary)) :
  descending_updated (map chat_entry (sort_by_updated l)) = true.
Proof.
  induction l as [|kv l IH]; [reflexivity|].
  cbn [sort_by_updated foldr]. now apply descending_insert.
Qed.

Lemma descending_tail (e : ChatEntry) (l : list ChatEntry) :
  descending_updated (e :: l) = true -> descending_updated l = true.
Proof.
  rewrite descending_cons. destruct l; [reflexivity|].
  intros Hs. now apply andb_true_iff in Hs as [_ Hs].
Qed.

Lemma descending_drop (n : nat) (l : list ChatEntry) :
  descending_updated l = true -> descending_updated (drop n l) = true.
Proof.
  revert l. induction n as [|n IH]; intros l Hs; [exact Hs|].
  destruct l as [|e l]; [reflexivity|]. cbn [drop skipn].
  apply IH. now apply descending_tail in Hs.
Qed.

Lemma descending_take (n : nat) (l : list ChatEntry) :
  descending_updated l = true -> descending_updated (take n l) = true.
Proof.
  revert n. induction l as [|e l IH]; intros n Hs; [now destruct n|].
  destruct n as [|n]; [reflexivity|]. cbn [take firstn].
  rewrite descending_cons. pose proof (descending_tail e l Hs) as Ht.
  specialize (IH n Ht). rewrite descending_cons in Hs.
  destruct l as [|e' l']; [now destruct n|].
  destruct n as [|n]; [reflexivity|]. cbn [take firstn] in *.
  apply andb_true_iff in Hs as [He _]. now rewrite He, IH.
Qed.

Lemma slice_sublist {A : Type} (start stop : Z) (l : list A) :
  sublist (slice start stop l) l.
Proof.
  unfold slice. etransitivity; [apply sublist_take | apply sublist_drop].
Qed.

Lemma slice_from_offset {A : Type} (offset limit : Z) (l : list A) :
  0 <= offset -> 0 <= limit ->
  slice offset (offset + limit) l = take (Z.to_nat limit) (drop (Z.to_nat offset) l).
Proof.
  intros Ho Hl. unfold slice.
  replace (offset <? 0) with false by (symmetry; apply Z.ltb_ge; lia).
  replace (offset + limit <? 0) with false by (symmetry; apply Z.ltb_ge; lia).
  destruct (Z_le_gt_dec (Z.of_nat (length l)) offset) as [Hge | Hlt].
  - rewrite !Z.min_r by lia. rewrite (drop_ge l (Z.to_nat offset)) by lia.
    rewrite Z.sub_diag, take_nil. cbn. now destruct (drop _ l).
  - rewrite (Z.min_l offset) by lia.
    destruct (Z_le_gt_dec (offset + limit) (Z.of_nat (length l))) as [Hin | Hout].
    + rewrite Z.min_l by lia. f_equal. lia.
    + rewrite Z.min_r by lia.
      rewrite !take_ge; [reflexivity | |]; rewrite length_drop; lia.
Qed.

Lemma entry_in_index (m : gmap string Summary) (kv : string * Summary) :
  In kv (Object_entries m) <-> m !! fst kv = Some (snd kv).
Proof.
  rewrite <- list_elem_of_In, (Object_entries_enumerates m).
  destruct kv as [k v]. apply elem_of_map_to_list.
Qed.

Lemma entries_NoDup (m : gmap string Summary) : NoDup (map fst (Object_entries m)).
Proof.
  assert (Heq : map fst (Object_entries m) = (Object_entries m).*1)
    by (induction (Object_entries m) as [|x l IH]; cbn; [|rewrite IH]; reflexivity).
  rewrite Heq, (Object_entries_enumerates m). apply NoDup_fst_map_to_list.
Qed.

Lemma chat_entry_ids (l : list (string * Summary)) :
  map ce_chat_id (map chat_entry l) = map fst l.
Proof. rewrite map_map. reflexivity. Qed.

Lemma map_sublist {A B : Type} (f : A -> B) (l k : list A) :
  sublist l k -> sublist (map f l) (map f k).
Proof. induction 1; cbn; [constructor | now constructor | now constructor]. Qed.

(** X18: [GET /api/chats], for an authorized request.  The answer gives
    the size of the index as total, and the offset and limit it used (50
    when the limit is absent, not a number or 0).  Its entries are index
    entries under their own ids, each id at most once, in descending order
    of the last-message stamp; for an offset that is not negative and a
    positive limit they are the [limit] entries that follow the first
    [offset] ones of the whole index so ordered. *)
Theorem X18_chat_listing_is_a_page_of_the_sorted_index (authorization : option string)
    (limit offset : option Z) (w : World) :
  checkAuth authorization = true ->
  let r := handle_list_chats Object_entries authorization limit offset w in
  let sorted := map chat_entry (sort_by_updated (Object_entries (chatIndex w))) in
  r = (200%nat,
       ListingChats (size (chatIndex w)) (int_or offset 0) (int_or limit 50) (listed_in r)) /\
  (limit = None \/ limit = Some 0 -> int_or limit 50 = 50) /\
  descending_updated (listed_in r) = true /\
  (forall e, In e (listed_in r) -> chatIndex w !! ce_chat_id e = Some (ce_info e)) /\
  NoDup (map ce_chat_id (listed_in r)) /\
  Permutation (map (fun e => (ce_chat_id e, ce_info e)) sorted) (map_to_list (chatIndex w)) /\
  (0 <= int_or offset 0 -> 0 < int_or limit 50 ->
   listed_in r =
     take (Z.to_nat (int_or limit 50)) (drop (Z.to_nat (int_or offset 0)) sorted)).
Proof.
  intros Hauth. cbn zeta. unfold handle_list_chats. rewrite Hauth. cbn [negb].
  cbn [listed_in snd].
  set (sorted := sort_by_updated (Object_entries (chatIndex w))).
  set (page := slice (int_or offset 0) (int_or offset 0 + int_or limit 50) sorted).
  assert (Hsub : sublist page sorted) by apply slice_sublist.
  split; [|split; [|split; [|split; [|split; [|split]]]]].
  - do 2 f_equal. rewrite (Object_entries_enumerates (chatIndex w)).
    apply length_map_to_list.
  - now intros [-> | ->].
  - subst page. unfold slice. rewrite <- firstn_map, <- skipn_map.
    apply descending_take, descending_drop, sort_by_updated_descending.
  - intros e He. apply in_map_iff in He as (kv & <- & Hkv).
    cbn [chat_entry ce_chat_id ce_info]. apply entry_in_index.
    apply list_elem_of_In in Hkv. apply list_elem_of_In.
    rewrite (sort_by_updated_perm (Object_entries (chatIndex w))).
    eapply elem_of_sublist; [exact Hkv | exact Hsub].
  - rewrite chat_entry_ids.
    apply (sublist_NoDup _ (map fst sorted)); [|apply map_sublist, Hsub].
    assert (Hp : Permutation (map fst sorted) (map fst (Object_entries (chatIndex w))))
      by (apply Permutation_map; symmetry; apply sort_by_updated_perm).
    rewrite Hp. apply entries_NoDup.
  - rewrite map_map.
    assert (Hid : forall l : list (string * Summary),
              map (fun x => (ce_chat_id (chat_entry x), ce_info (chat_entry x))) l = l).
    { induction l as [|[k v] l IH]; [reflexivity|].
      cbn [map chat_entry ce_chat_id ce_info fst snd]. now f_equal. }
    rewrite Hid. subst sorted. rewrite <- sort_by_updated_perm.
    apply Object_entries_enumerates.
  - intros Ho Hl. subst page. rewrite slice_from_offset by lia.
    now rewrite <- firstn_map, <- skipn_map.
Qed.

(** X19: [GET /api/unread], for an authorized request.  The answer holds
    exactly the index entries whose last message is inbound and whose
    stamp passes the cutoff test for the days asked (3 when absent, not a
    number or 0): none is left out and none is added.  They come in
    descending order of the stamp, each id once, and [count] is their
    number. *)
Theorem X19_unread_listing_is_the_recent_inbound_part_of_the_index
    (authorization : option string) (days : option Z) (w : World) :
  checkAuth authorization = true ->
  let r := handle_unread Object_entries newer_than_cutoff authorization days w in
  r = (200%nat, ListingUnread (length (listed_in r)) (int_or days 3) (listed_in r)) /\
  (days = None \/ days = Some 0 -> int_or days 3 = 3) /\
  (forall id info,
     (exists e, In e (listed_in r) /\ ce_chat_id e = id /\ ce_info e = info) <->
     (chatIndex w !! id = Some info /\ lastDir info = DirIn /\
      newer_than_cutoff (updated info) (date_now (ext w)) (int_or days 3) = true)) /\
  descending_updated (listed_in r) = true /\
  NoDup (map ce_chat_id (listed_in r)).
Proof.
  intros Hauth. cbn zeta. unfold handle_unread. rewrite Hauth. cbn [negb].
  cbn [listed_in snd].
  set (keep := fun kv : string * Summary =>
                 match lastDir (snd kv) with
                 | DirIn => newer_than_cutoff (updated (snd kv)) (date_now (ext w))
                              (int_or days 3)
                 | DirOut => false
                 end).
  split; [reflexivity|]. split; [now intros [-> | ->]|].
  split; [|split].
  - intros id info. split.
    + intros (e & He & <- & <-). apply in_map_iff in He as (kv & <- & Hkv).
      cbn [chat_entry ce_chat_id ce_info].
      apply list_elem_of_In in Hkv. rewrite <- sort_by_updated_perm in Hkv.
      apply list_elem_of_In, filter_In in Hkv as [Hin Hkeep].
      apply entry_in_index in Hin. split; [exact Hin|].
      unfold keep in Hkeep. destruct (lastDir (snd kv)); [now split | discriminate].
    + intros (Hidx & Hdir & Hnew). exists (chat_entry (id, info)).
      split; [|split; reflexivity].
      apply in_map. apply list_elem_of_In. rewrite <- sort_by_updated_perm.
      apply list_elem_of_In, filter_In. split.
      * now apply entry_in_index.
      * unfold keep. cbn [snd]. now rewrite Hdir.
  - apply sort_by_updated_descending.
  - rewrite chat_entry_ids.
    assert (Hp : Permutation (map fst (sort_by_updated (List.filter keep
                                (Object_entries (chatIndex w)))))
                   (map fst (List.filter keep (Object_entries (chatIndex w)))))
      by (apply Permutation_map; symmetry; apply sort_by_updated_perm).
    rewrite Hp.
    apply (sublist_NoDup _ (map fst (Object_entries (chatIndex w))));
      [apply entries_NoDup|].
    apply map_sublist. clear.
    induction (Object_entries (chatIndex w)) as [|x l IH]; [constructor|].
    cbn [List.filter]. destruct (keep x); now constructor.
Qed.

End ListingFacts.

Lemma X18_chat_listing_is_a_page_of_the_sorted_index_witness :
  @checkAuth quiet None = true /\
  0 <= int_or (Some 1) 0 /\ 0 < int_or (Some 1) 50 /\
  map ce_chat_id
    (listed_in (@handle_list_chats quiet map_to_list None (Some 1) (Some 1) three_chats)) =
  ["c"].
Proof.
  split; [reflexivity|]. split; [cbn; lia|]. split; [cbn; lia|].
  pose proof (@X18_chat_listing_is_a_page_of_the_sorted_index quiet map_to_list
                (fun m => Permutation_refl _) None (Some 1) (Some 1) three_chats eq_refl)
    as (_ & _ & _ & _ & _ & _ & Hpage).
  rewrite Hpage by (cbn; lia). vm_compute. reflexivity.
Defined.

Lemma X19_unread_listing_is_the_recent_inbound_part_of_the_index_witness :
  @checkAuth quiet None = true /\
  map ce_chat_id
    (listed_in (@handle_unread quiet map_to_list exact_cutoff None None three_chats)) =
  ["c"; "a"] /\
  descending_updated
    (listed_in (@handle_unread quiet map_to_list exact_cutoff None None three_chats)) = true.
Proof.
  split; [reflexivity|]. split; [vm_compute; reflexivity|].
  apply (@X19_unread_listing_is_the_recent_inbound_part_of_the_index quiet map_to_list
           exact_cutoff (fun m => Permutation_refl _) None None three_chats eq_refl).
Defined.
